(** * kyaml: byte reader, package read-writer and value filters

    A shallow embedding of
      - kyaml/kio/byteio_reader.go  (ByteReadWriter.Read, ByteReader.Read,
                                     decode, isEmptyDocument)
      - kyaml/kio/pkgio_reader.go   (LocalPackageReadWriter, LocalPackageReader)
      - kyaml/yaml/filters.go       (Filters, YFilter, FilterMatcher,
                                     ValueReplacer, PrefixSetter, SuffixSetter)
      - kyaml/yaml/kfns.go          (AnnotationSetter, AnnotationGetter)
    together with the properties the specification states about them. *)

From Stdlib Require Import ZArith String Ascii List Lia Sorted.
From Stdlib Require Import DecimalString DecimalZ DecimalPos.
From stdpp Require Import base gmap sets list strings.

Local Open Scope string_scope.
Local Open Scope list_scope.
Set Warnings "-register-all".

(* ===================================================================== *)
(** ** The parts of the Go standard library the sources call *)
(* ===================================================================== *)

Module gostd.

(** Go's [error] values.  [io_EOF] and [filepath_SkipDir] are the two
    sentinels the sources compare against; every other error is carried by
    its message.  A run-time panic (index out of range) aborts the enclosing
    calls the way a returned error does in these sources, so it travels in
    the same channel under its own constructor. *)
Inductive error : Type :=
  | io_EOF
  | filepath_SkipDir
  | errorString (msg : string)
  | runtime_panic (msg : string).

#[global] Instance error_eq_dec : EqDecision error.
Proof. solve_decision. Defined.

Inductive result (A : Type) : Type :=
  | Ok (a : A)
  | Err (e : error).
Arguments Ok {A} a.
Arguments Err {A} e.

Definition bind {A B} (r : result A) (k : A -> result B) : result B :=
  match r with
  | Ok a => k a
  | Err e => Err e
  end.

Notation "'let*' x ':=' c1 'in' c2" := (bind c1 (fun x => c2))
  (at level 10, x pattern, c1 at level 100, c2 at level 200).

(** [int] is 64 bits wide; arithmetic wraps. *)
Definition int_min : Z := (- 2 ^ 63)%Z.
Definition int_max : Z := (2 ^ 63 - 1)%Z.
Definition wrap_int (z : Z) : Z := ((z + 2 ^ 63) mod 2 ^ 64 - 2 ^ 63)%Z.

(** [fmt.Sprintf("%d", z)]. *)
Definition Sprintf_d (z : Z) : string := NilZero.string_of_int (Z.to_int z).

(** [strings.HasPrefix]:
    [len(s) >= len(prefix) && s[0:len(prefix)] == prefix]. *)
Definition HasPrefix (s prefix : string) : bool :=
  (String.length prefix <=? String.length s)%nat
  && String.eqb (substring 0 (String.length prefix) s) prefix.

(** [strings.HasSuffix]:
    [len(s) >= len(suffix) && s[len(s)-len(suffix):] == suffix]. *)
Definition HasSuffix (s suffix : string) : bool :=
  (String.length suffix <=? String.length s)%nat
  && String.eqb
       (substring (String.length s - String.length suffix)
                  (String.length suffix) s)
       suffix.

(** [strings.Join]. *)
Fixpoint Join (elems : list string) (sep : string) : string :=
  match elems with
  | [] => ""
  | [e] => e
  | e :: rest => e +:+ sep +:+ Join rest sep
  end.

(** The scanning loop of [strings.Split] for a non-empty separator: [cur]
    is the segment being collected, [skip] the number of bytes of a
    separator found earlier that are still to be passed over. *)
Fixpoint split_scan (sep : string) (skip : nat) (cur : string) (s : string)
  : list string :=
  match s with
  | EmptyString => [cur]
  | String c s' =>
      match skip with
      | S k => split_scan sep k cur s'
      | O =>
          if String.prefix sep s
          then cur :: split_scan sep (String.length sep - 1) "" s'
          else split_scan sep 0 (cur +:+ String c "") s'
      end
  end.

(** The bytes of [s], one string each ([explode] for single-byte text). *)
Fixpoint explode (s : string) : list string :=
  match s with
  | EmptyString => []
  | String c s' => String c "" :: explode s'
  end.

(** [strings.Split(s, sep)]: the pieces of [s] between the leftmost,
    non-overlapping occurrences of [sep].  With an empty separator Go
    explodes [s] into its UTF-8 sequences; that branch is written here for
    single-byte text and is not reached from the sources, which always pass
    the five-byte document separator. *)
Definition Split (s sep : string) : list string :=
  match sep with
  | EmptyString => explode s
  | _ => split_scan sep 0 "" s
  end.

(** The copy loop of [strings.Replace] for a non-empty [old]: [n] is the
    number of replacements still allowed, negative meaning no limit. *)
Fixpoint replace_scan (old new : string) (n : Z) (skip : nat) (s : string)
  : string :=
  match s with
  | EmptyString => ""
  | String c s' =>
      match skip with
      | S k => replace_scan old new n k s'
      | O =>
          if (n =? 0)%Z then s
          else if String.prefix old s
          then new +:+ replace_scan old new
                         (if (n <? 0)%Z then n else (n - 1)%Z)
                         (String.length old - 1) s'
          else String c (replace_scan old new n 0 s')
      end
  end.

(** [strings.Replace] with an empty [old]: [new] goes in front of every
    byte and at the end, at most [n] times (single-byte text). *)
Fixpoint replace_empty (new : string) (n : Z) (s : string) : string :=
  if (n =? 0)%Z then s
  else
    match s with
    | EmptyString => new
    | String c s' =>
        new +:+ String c (replace_empty new
                            (if (n <? 0)%Z then n else (n - 1)%Z) s')
    end.

(** [strings.Replace(s, old, new, n)]. *)
Definition Replace (s old new : string) (n : Z) : string :=
  if String.eqb old new || (n =? 0)%Z then s
  else
    match old with
    | EmptyString => replace_empty new n s
    | _ => replace_scan old new n 0 s
    end.

(** [strings.Count(s, substr)] for a non-empty [substr]: the number of
    non-overlapping occurrences. *)
Fixpoint count_scan (sub : string) (skip : nat) (s : string) : nat :=
  match s with
  | EmptyString => 0
  | String c s' =>
      match skip with
      | S k => count_scan sub k s'
      | O =>
          if String.prefix sub s
          then S (count_scan sub (String.length sub - 1) s')
          else count_scan sub 0 s'
      end
  end.

Definition Count (s sub : string) : nat :=
  match sub with
  | EmptyString => S (String.length s)
  | _ => count_scan sub 0 s
  end.

(** [sort.Strings]: ascending byte-wise order. *)
Fixpoint sort_insert (x : string) (l : list string) : list string :=
  match l with
  | [] => [x]
  | y :: l' => if String.leb x y then x :: l else y :: sort_insert x l'
  end.

Definition sort_Strings (l : list string) : list string :=
  foldr sort_insert [] l.

(** The order [sort.Strings] sorts by. *)
Definition le_string (a b : string) : Prop := String.leb a b = true.

(** [s[n:]], empty when [n] is past the end. *)
Fixpoint string_drop (n : nat) (s : string) : string :=
  match n, s with
  | O, _ => s
  | S k, EmptyString => ""
  | S k, String _ s' => string_drop k s'
  end.

(** [sep] occurs in [s]. *)
Definition occurs (sep s : string) : Prop := exists a b, s = a +:+ sep +:+ b.

End gostd.

(* ===================================================================== *)
(** ** Package yaml: the document tree *)
(* ===================================================================== *)

Module yaml.
Import gostd.

(** [yaml.Kind] of gopkg.in/yaml.v3. *)
Inductive Kind : Type :=
  | DocumentNode | SequenceNode | MappingNode | ScalarNode | AliasNode.

Definition Kind_eqb (a b : Kind) : bool :=
  match a, b with
  | DocumentNode, DocumentNode | SequenceNode, SequenceNode
  | MappingNode, MappingNode | ScalarNode, ScalarNode
  | AliasNode, AliasNode => true
  | _, _ => false
  end.

(** [yaml.Node] of gopkg.in/yaml.v3, with the fields the sources touch.  A
    mapping keeps its keys and values alternating in [Content]; a document
    keeps its root in [Content[0]]. *)
Inductive Node : Type :=
  mkNode { NodeKind : Kind; Tag : string; Value : string;
           Content : list Node }.

Definition NullNodeTag : string := "!!null".

(** [RNode]: the handle through which the library works on one tree. *)
Record RNode : Type := NewRNode { value : Node }.

(** [ResourceMeta], the fields the sources read. *)
Record ResourceMeta : Type :=
  mkResourceMeta { ApiVersion : string; MetaKind : string }.

(** [MapNode]: one field of a mapping. *)
Record MapNode : Type := mkMapNode { Key : RNode; MapValue : RNode }.

Definition set_Content (n : Node) (c : list Node) : Node :=
  mkNode (NodeKind n) (Tag n) (Value n) c.

Definition set_Value (n : Node) (v : string) : Node :=
  mkNode (NodeKind n) (Tag n) v (Content n).

(** Modelled from the spec: [RNode.YNode], declared outside these files.  A
    handle on a document stands for the document's root ("a Document Node
    always represents a single valid tree"); a document without content
    stands for itself. *)
Definition YNode (rn : RNode) : Node :=
  match NodeKind (value rn), Content (value rn) with
  | DocumentNode, root :: _ => root
  | _, _ => value rn
  end.

(** [RNode.Content]: the content of the node the handle stands for. *)
Definition RContent (rn : RNode) : list Node := Content (YNode rn).

(** The value stored under [name] among alternating keys and values. *)
Fixpoint lookup_pair (name : string) (content : list Node) : option (Node * Node) :=
  match content with
  | k :: v :: rest =>
      if String.eqb (Value k) name then Some (k, v) else lookup_pair name rest
  | _ => None
  end.

(** Modelled from the spec: [RNode.Field], declared outside these files:
    "Field(name) returns nil if absent (never errors)". *)
Definition Field (rn : RNode) (name : string) : option MapNode :=
  match NodeKind (YNode rn) with
  | MappingNode =>
      match lookup_pair name (Content (YNode rn)) with
      | Some (k, v) => Some (mkMapNode (NewRNode k) (NewRNode v))
      | None => None
      end
  | _ => None
  end.

(** Modelled from the spec: [IsMissingOrNull], declared outside these
    files: a nil handle, or one standing for an explicit null. *)
Definition IsMissingOrNull (rn : option RNode) : bool :=
  match rn with
  | None => true
  | Some n => String.eqb (Tag (YNode n)) NullNodeTag
  end.

Definition field_text (rn : RNode) (name : string) : string :=
  match Field rn name with
  | Some f => Value (YNode (MapValue f))
  | None => ""
  end.

(** Modelled from the spec: [RNode.GetMeta], declared outside these files:
    the [kind] and [apiVersion] the document declares, empty when it
    declares none. *)
Definition GetMeta (rn : RNode) : ResourceMeta :=
  mkResourceMeta (field_text rn "apiVersion") (field_text rn "kind").

(** Modelled from the spec: [NewScalarRNode], declared outside these
    files. *)
Definition NewScalarNode (v : string) : Node := mkNode ScalarNode "" v [].

Definition NewMappingNode : Node := mkNode MappingNode "" "" [].

(** Replace the value stored under [name], or add the pair at the end.  A
    key without a value is not something a decoder produces; reaching for
    its value is an index out of range. *)
Fixpoint set_pair (name : string) (v : Node) (content : list Node)
  : result (list Node) :=
  match content with
  | [] => Ok [NewScalarNode name; v]
  | [_] => Err (runtime_panic "index out of range")
  | k :: old :: rest =>
      if String.eqb (Value k) name then Ok (k :: v :: rest)
      else
        let* rest' := set_pair name v rest in
        Ok (k :: old :: rest')
  end.

Definition wrong_kind : error := errorString "wrong Node Kind".

(** Modelled from the spec: one step of [PathGetter] in create mode,
    declared outside these files: look the field [name] of a mapping up,
    "creating missing intermediate mapping nodes" when it is absent, and
    carry on with [k] on that field; what [k] does to the field is seen
    through the mapping (getters return references into the tree). *)
Definition in_field_create (name : string) (k : Node -> result Node) (m : Node)
  : result Node :=
  match NodeKind m with
  | MappingNode =>
      let old := match lookup_pair name (Content m) with
                 | Some (_, v) => v
                 | None => NewMappingNode
                 end in
      let* v' := k old in
      let* content' := set_pair name v' (Content m) in
      Ok (set_Content m content')
  | _ => Err wrong_kind
  end.

(** Modelled from the spec: [FieldSetter], declared outside these files:
    set the field [name] of a mapping to [v], in place. *)
Definition FieldSetter (name : string) (v : Node) (m : Node) : result Node :=
  match NodeKind m with
  | MappingNode =>
      let* content' := set_pair name v (Content m) in
      Ok (set_Content m content')
  | _ => Err wrong_kind
  end.

(** Run [k] on the node the handle stands for, in place. *)
Definition on_YNode (k : Node -> result Node) (rn : RNode) : result RNode :=
  match NodeKind (value rn), Content (value rn) with
  | DocumentNode, root :: rest =>
      let* root' := k root in
      Ok (NewRNode (set_Content (value rn) (root' :: rest)))
  | _, _ =>
      let* n' := k (value rn) in Ok (NewRNode n')
  end.

(** kfns.go, [AnnotationSetter.Filter] as [SetAnnotation(key, value)] builds
    it:
      rn.Pipe(PathGetter{Path: {"metadata", "annotations"}, Create: MappingNode},
              FieldSetter{Name: s.Key, Value: NewScalarRNode(s.Value)})
    The filter works in place on a tree that its caller holds; the result
    is that tree after the call. *)
Definition SetAnnotation (key val : string) (rn : RNode) : result RNode :=
  on_YNode
    (in_field_create "metadata"
       (in_field_create "annotations"
          (FieldSetter key (NewScalarNode val))))
    rn.

(** kfns.go, [AnnotationGetter.Filter] with no expected value:
      rn.Pipe(PathGetter{Path: {"metadata", "annotations", g.Key}})
    as the text of the annotation, if there is one. *)
Definition GetAnnotation (key : string) (rn : RNode) : option string :=
  match Field rn "metadata" with
  | Some md =>
      match Field (MapValue md) "annotations" with
      | Some an =>
          match Field (MapValue an) key with
          | Some f => Some (Value (YNode (MapValue f)))
          | None => None
          end
      | None => None
      end
  | None => None
  end.

(** kfns.go, [AnnotationGetter.Filter]: the annotation under [Key], if
    there is one and [Value] is empty or is its text:
      if g.Value == "" || v.value.Value == g.Value { return v, err }
      return nil, err *)
Definition AnnotationGetter_Filter (key val : string) (rn : RNode) : option string :=
  match GetAnnotation key rn with
  | None => None
  | Some v => if String.eqb val "" || String.eqb v val then Some v else None
  end.

(** The value of the field [name] of a mapping node. *)
Definition field_of (name : string) (m : Node) : option Node :=
  match NodeKind m with
  | MappingNode => snd <$> lookup_pair name (Content m)
  | _ => None
  end.

(** The annotation [key] read off the root of a tree. *)
Definition annotation_of (key : string) (root : Node) : option string :=
  md ← field_of "metadata" root;
  an ← field_of "annotations" (YNode (NewRNode md));
  f ← field_of key (YNode (NewRNode an));
  Some (Value (YNode (NewRNode f))).

(** Two trees with the same tag and the same fields at the root, the
    field [metadata] apart. *)
Definition same_fields (n d : RNode) : Prop :=
  Tag (YNode n) = Tag (YNode d) /\
  forall name, name <> "metadata" -> field_of name (YNode n) = field_of name (YNode d).

(* --------------------------------------------------------------------- *)
(** *** filters.go *)
(* --------------------------------------------------------------------- *)

(** The filters of filters.go take a pointer to an [RNode] and assign
    through it
    ([object.value.Value = ...]), so the caller sees the change through
    its own pointer.  Nodes behind pointers live in a store; a pointer is
    an address in it, or nil. *)
Definition ptr : Type := positive.
Abbreviation store := (gmap positive Node).

(** What a [Filter] method returns, a node pointer and an error, and the
    store it leaves. *)
Definition outcome : Type := option ptr * option error * store.

(** The [Filter] interface: a value of it is its [Filter] method. *)
Definition Filter : Type := ptr -> store -> outcome.

Definition nil_dereference : error :=
  runtime_panic "invalid memory address or nil pointer dereference".

(** Modelled from the spec: [RNode.Pipe], declared outside these files:
    "applies filters strictly left to right to a starting node; the
    accumulated node from filter i becomes the input to filter i+1.
    Evaluation stops immediately (returning the last non-error result,
    which may be nil) when a filter returns nil or a non-nil error". *)
Fixpoint Pipe (functions : list Filter) (rn : ptr) (st : store) : outcome :=
  match functions with
  | [] => (Some rn, None, st)
  | c :: rest =>
      match c rn st with
      | (_, Some e, st') => (Some rn, Some e, st')
      | (None, None, st') => (None, None, st')
      | (Some v, None, st') => Pipe rest v st'
      end
  end.

(** [FilterMatcher]; [Filters] is what [t.Filters.Filters()] gives, the
    filters of the declared pipeline in order. *)
Record FilterMatcher : Type := mkFilterMatcher {
  FilterMatcher_Kind : string;
  FilterMatcher_Filters : list Filter
}.

(** [FilterMatcher.Filter]. *)
Definition FilterMatcher_Filter (t : FilterMatcher) (rn : ptr) (st : store)
  : outcome :=
  match Pipe (FilterMatcher_Filters t) rn st with
  | (v, err, st') =>
      if bool_decide (v = None) || bool_decide (err <> None)
      then (None, err, st')
      else (Some rn, err, st')
  end.

Record ValueReplacer : Type := mkValueReplacer {
  ValueReplacer_Kind : string;
  StringMatch : string;
  RegexMatch : string;
  ReplaceWith : string;
  Count : Z
}.

Record PrefixSetter : Type := mkPrefixSetter {
  PrefixSetter_Kind : string;
  PrefixSetter_Value : string
}.

Record SuffixSetter : Type := mkSuffixSetter {
  SuffixSetter_Kind : string;
  SuffixSetter_Value : string
}.

(** [err.Error()]. *)
Definition Error (e : error) : string :=
  match e with
  | io_EOF => "EOF"
  | filepath_SkipDir => "skip this directory"
  | errorString msg => msg
  | runtime_panic msg => msg
  end.

Definition missing_match : error :=
  errorString "ValueReplacer missing StringMatch and RegexMatch".

Section Regexp.

(** Package regexp of the Go library: compiled patterns,
    [regexp.Compile] and [Regexp.ReplaceAllString]. *)
Variable Regexp : Type.
Variable regexp_Compile : string -> result Regexp.
Variable ReplaceAllString : Regexp -> string -> string -> string.

(** [ValueReplacer.Filter]. *)
Definition ValueReplacer_Filter (s : ValueReplacer) (object : ptr) (st : store)
  : outcome :=
  let count := if (Count s =? 0)%Z then (-1)%Z else Count s in
  if negb (String.eqb (StringMatch s) "") then
    match st !! object with
    | None => (None, Some nil_dereference, st)
    | Some n =>
        (Some object, None,
         <[object := set_Value n
                       (Replace (Value n) (StringMatch s) (ReplaceWith s) count)]> st)
    end
  else if negb (String.eqb (RegexMatch s) "") then
    match regexp_Compile (RegexMatch s) with
    | Err err =>
        (None,
         Some (errorString
                 ("ValueReplacer RegexMatch does not compile: " +:+ Error err)),
         st)
    | Ok r =>
        match st !! object with
        | None => (None, Some nil_dereference, st)
        | Some n =>
            (Some object, None,
             <[object := set_Value n
                           (ReplaceAllString r (Value n) (ReplaceWith s))]> st)
        end
    end
  else (None, Some missing_match, st).

End Regexp.

(** [PrefixSetter.Filter]. *)
Definition PrefixSetter_Filter (s : PrefixSetter) (object : ptr) (st : store)
  : outcome :=
  match st !! object with
  | None => (None, Some nil_dereference, st)
  | Some n =>
      if negb (HasPrefix (Value n) (PrefixSetter_Value s))
      then (Some object, None,
            <[object := set_Value n (PrefixSetter_Value s +:+ Value n)]> st)
      else (Some object, None, st)
  end.

(** [SuffixSetter.Filter]. *)
Definition SuffixSetter_Filter (s : SuffixSetter) (object : ptr) (st : store)
  : outcome :=
  match st !! object with
  | None => (None, Some nil_dereference, st)
  | Some n =>
      if negb (HasSuffix (Value n) (SuffixSetter_Value s))
      then (Some object, None,
            <[object := set_Value n (Value n +:+ SuffixSetter_Value s)]> st)
      else (Some object, None, st)
  end.

(** The concrete filter types behind the [Filter] interface, as
    declarations hold them.  The types declared in filters.go and kfns.go
    carry their fields; the fields of the types declared elsewhere are not
    represented. *)
Inductive Instance : Type :=
  | AnnotationClearer (Kind Key : string)
  | AnnotationGetter (Kind Key Val : string)
  | AnnotationSetter (Kind Key Val : string)
  | ElementAppender
  | ElementMatcher
  | FieldClearer
  | FilterMatcherDecl (Kind : string) (pipeline : list Instance)
  | FieldMatcher
  | FieldSetterDecl
  | PathGetter
  | PathMatcher
  | Parser
  | PrefixSetterDecl (s : PrefixSetter)
  | ValueReplacerDecl (s : ValueReplacer)
  | SuffixSetterDecl (s : SuffixSetter)
  | TeePiper.

(** The entries of the [Filters] map literal, as written. *)
Definition Filters_entries : list (string * (unit -> Instance)) :=
  [ ("AnnotationClearer", fun _ => AnnotationClearer "" "");
    ("AnnotationGetter", fun _ => AnnotationGetter "" "" "");
    ("AnnotationSetter", fun _ => AnnotationSetter "" "" "");
    ("ElementAppender", fun _ => ElementAppender);
    ("ElementMatcher", fun _ => ElementMatcher);
    ("FieldClearer", fun _ => FieldClearer);
    ("FilterMatcher", fun _ => FilterMatcherDecl "" []);
    ("FieldMatcher", fun _ => FieldMatcher);
    ("FieldSetter", fun _ => FieldSetterDecl);
    ("PathGetter", fun _ => PathGetter);
    ("PathMatcher", fun _ => PathMatcher);
    ("Parser", fun _ => Parser);
    ("PrefixSetter", fun _ => PrefixSetterDecl (mkPrefixSetter "" ""));
    ("ValueReplacer", fun _ => ValueReplacerDecl (mkValueReplacer "" "" "" "" 0));
    ("SuffixSetter", fun _ => SuffixSetterDecl (mkSuffixSetter "" ""));
    ("TeePiper", fun _ => TeePiper) ].

(** [var Filters = map[string]func() Filter{...}]. *)
Definition Filters : gmap string (unit -> Instance) :=
  list_to_map Filters_entries.

(** [YFilter]: the embedded [Filter], nil until one is constructed. *)
Record YFilter : Type := mkYFilter { YFilter_Filter : option Instance }.

(** The keys of [Filters], sorted, as the error message lists them:
      for k := range Filters { knownFilters = append(knownFilters, k) }
      sort.Strings(knownFilters) *)
Definition knownFilters : list string :=
  sort_Strings (map fst (map_to_list Filters)).

Definition unsupported_kind (kind : string) : error :=
  errorString
    ("unsupported GrepFilter Kind " +:+ kind +:+ ":  may be one of: ["
       +:+ Join knownFilters "," +:+ "]").

(** The names registered in [Filters], in ascending order. *)
Definition registered : list string :=
  [ "AnnotationClearer"; "AnnotationGetter"; "AnnotationSetter";
    "ElementAppender"; "ElementMatcher"; "FieldClearer"; "FieldMatcher";
    "FieldSetter"; "FilterMatcher"; "Parser"; "PathGetter"; "PathMatcher";
    "PrefixSetter"; "SuffixSetter"; "TeePiper"; "ValueReplacer" ].

(** Each registered name with the value its constructor gives. *)
Definition zero_values : list (string * Instance) :=
  map (fun e => (fst e, snd e tt)) Filters_entries.

(** [YFilter.UnmarshalYAML].  The callback [unmarshal] fills the value it
    is given from the declaration and may fail: [unmarshal_meta] is the
    callback at the [ResourceMeta], [unmarshal_filter] at a filter.  The
    receiver is a pointer: the [YFilter] after the call is returned with
    the error. *)
Definition UnmarshalYAML
    (unmarshal_meta : ResourceMeta -> ResourceMeta * option error)
    (unmarshal_filter : Instance -> Instance * option error)
    (y : YFilter) : option error * YFilter :=
  match unmarshal_meta (mkResourceMeta "" "") with
  | (_, Some err) => (Some err, y)
  | (meta, None) =>
      match Filters !! MetaKind meta with
      | None => (Some (unsupported_kind (MetaKind meta)), y)
      | Some filter =>
          match unmarshal_filter (filter tt) with
          | (f, Some err) => (Some err, mkYFilter (Some f))
          | (f, None) => (None, mkYFilter (Some f))
          end
      end
  end.

End yaml.

(* ===================================================================== *)
(** ** Package kio: byteio_reader.go *)
(* ===================================================================== *)

Module kio.
Import gostd yaml.

Definition ResourceListKind : string := "ResourceList".
Definition ResourceListApiVersion : string := "kyaml.kustomize.dev/v1alpha1".

(** The document separator [Read] splits on: a line holding three dashes. *)
Definition separator : string :=
  String "010" ("---" +:+ String "010" "").

(** A [map[string]string] is a reference: the maps live in a store and a
    field of map type holds an address, or nil. *)
Definition loc : Type := positive.
Abbreviation annotations := (gmap string string).
Abbreviation heap := (gmap loc (gmap string string)).

Definition deref (h : heap) (l : loc) : annotations := default ∅ (h !! l).

(** [m[k] = v] on the map at [l]. *)
Definition map_store (h : heap) (l : loc) (k v : string) : heap :=
  <[l := <[k := v]> (deref h l)]> h.

(** [map[string]string{}]: a new, empty map. *)
Definition map_alloc (h : heap) : loc * heap :=
  let l := fresh (dom h) in (l, <[l := ∅]> h).

(** [ByteReader].  [Reader] is what copying the whole of the [io.Reader]
    gives: its bytes, or the error of the copy. *)
Record ByteReader : Type := mkByteReader {
  Reader : result string;
  OmitReaderAnnotations : bool;
  SetAnnotations : option loc;
  FunctionConfig : option RNode;
  WrappingApiVersion : string;
  WrappingKind : string
}.

Definition with_SetAnnotations (r : ByteReader) (l : option loc) : ByteReader :=
  mkByteReader (Reader r) (OmitReaderAnnotations r) l (FunctionConfig r)
    (WrappingApiVersion r) (WrappingKind r).

Definition with_Wrapping (r : ByteReader) (kind apiVersion : string) : ByteReader :=
  mkByteReader (Reader r) (OmitReaderAnnotations r) (SetAnnotations r)
    (FunctionConfig r) apiVersion kind.

Definition with_FunctionConfig (r : ByteReader) (fc : option RNode) : ByteReader :=
  mkByteReader (Reader r) (OmitReaderAnnotations r) (SetAnnotations r) fc
    (WrappingApiVersion r) (WrappingKind r).

(** [ByteReadWriter], but for [Writer] and [Style], which [Write] alone
    uses. *)
Record ByteReadWriter : Type := mkByteReadWriter {
  brw_Reader : result string;
  brw_OmitReaderAnnotations : bool;
  brw_KeepReaderAnnotations : bool;
  brw_FunctionConfig : option RNode;
  brw_WrappingApiVersion : string;
  brw_WrappingKind : string
}.

(** What a reader holds of a wrapping list. *)
Definition wrapping (r : ByteReader) : option RNode * string * string :=
  (FunctionConfig r, WrappingApiVersion r, WrappingKind r).

(** [isEmptyDocument]:
      node.Kind == yaml.DocumentNode && node.Content[0].Tag == yaml.NullNodeTag
    Indexing a document without content panics. *)
Definition isEmptyDocument (node : Node) : result bool :=
  match NodeKind node with
  | DocumentNode =>
      match Content node with
      | c0 :: _ => Ok (String.eqb (Tag c0) NullNodeTag)
      | [] => Err (runtime_panic "index out of range")
      end
  | _ => Ok false
  end.

(** The loop over the sorted keys in [decode]:
      for _, k := range keys { _, err = n.Pipe(SetAnnotation(k, m[k])) ... } *)
Fixpoint set_all (m : annotations) (keys : list string) (n : RNode) : result RNode :=
  match keys with
  | [] => Ok n
  | k :: rest =>
      let* n' := SetAnnotation k (default "" (m !! k)) n in
      set_all m rest n'
  end.

(** The keys of a map in the order [sort.Strings] leaves them. *)
Definition sorted_keys (m : annotations) : list string :=
  sort_Strings (map fst (map_to_list m)).

(** What one turn of the [for i := range values] loop of [ByteReader.Read]
    leaves: the state the next turn starts from, or the error [Read]
    returns at once. *)
Inductive turn (A : Type) : Type :=
  | Continue (r : ByteReader) (h : heap) (output : list A) (index : Z)
  | Return (e : error) (r : ByteReader) (h : heap).
Arguments Continue {A} r h output index.
Arguments Return {A} e r h.

Section ByteReader.

(** [yaml.NewDecoder(bytes.NewBufferString(text)).Decode(node)] of
    gopkg.in/yaml.v3: the document the text holds, [io.EOF] when it holds
    none, or a parse error. *)
Variable Decode : string -> result Node.

(** [kioutil.IndexAnnotation], declared outside these files. *)
Variable IndexAnnotation : string.

(** [ByteReader.decode].  The reader is behind a pointer: the reader and
    the store of maps after the call are returned with the result. *)
Definition decode (r : ByteReader) (h : heap) (index : Z) (text : string)
  : result (option RNode) * ByteReader * heap :=
  match Decode text with
  | Err e => (Err e, r, h)
  | Ok node =>
      match isEmptyDocument node with
      | Err e => (Err e, r, h)
      | Ok true => (Ok None, r, h)
      | Ok false =>
          let n := NewRNode node in
          let '(l, h1) :=
            match SetAnnotations r with
            | Some l => (l, h)
            | None => map_alloc h
            end in
          let r1 := with_SetAnnotations r (Some l) in
          let h2 :=
            if OmitReaderAnnotations r then h1
            else map_store h1 l IndexAnnotation (Sprintf_d index) in
          let keys := sorted_keys (deref h2 l) in
          match set_all (deref h2 l) keys n with
          | Err e => (Err e, r1, h2)
          | Ok n' => (Ok (Some n'), r1, h2)
          end
      end
  end.

(** The test that makes a document a wrapping list:
      (meta.Kind == ResourceListKind || meta.Kind == "List") &&
        node.Field("items") != nil *)
Definition is_wrapping_list (node : RNode) : bool :=
  (String.eqb (MetaKind (GetMeta node)) ResourceListKind
   || String.eqb (MetaKind (GetMeta node)) "List")
  && bool_decide (is_Some (Field node "items")).

(** The body of the loop of [Read] at the segment [text].  It is written once for
    any labelling of what it appends: [direct] labels a document appended
    as it was read, [item] one taken out of a wrapping list. *)
Definition Read_body {A : Type} (direct item : RNode -> A)
    (text : string) (r : ByteReader) (h : heap) (output : list A) (index : Z)
  : turn A :=
  let '(res, r1, h1) := decode r h index text in
  match res with
  | Err io_EOF => Continue r1 h1 output index
  | Err e => Return e r1 h1
  | Ok node =>
      if IsMissingOrNull node then Continue r1 h1 output index
      else
        match node with
        | None => Continue r1 h1 output index
        | Some node =>
            if is_wrapping_list node then
              let meta := GetMeta node in
              let r2 := with_Wrapping r1 (MetaKind meta) (ApiVersion meta) in
              let r3 :=
                match Field node "functionConfig" with
                | Some fc => with_FunctionConfig r2 (Some (MapValue fc))
                | None => r2
                end in
              let output' :=
                match Field node "items" with
                | Some items =>
                    output
                      ++ map (fun c => item (NewRNode c)) (RContent (MapValue items))
                | None => output
                end in
              Continue r3 h1 output' index
            else
              Continue r1 h1 (output ++ [direct node]) (wrap_int (index + 1))
        end
  end.

(** The loop, continued from [values] with the current state. *)
Fixpoint read_loop {A : Type} (direct item : RNode -> A)
    (values : list string) (r : ByteReader) (h : heap)
    (output : list A) (index : Z)
  : result (list A) * ByteReader * heap :=
  match values with
  | [] => (Ok output, r, h)
  | text :: rest =>
      match Read_body direct item text r h output index with
      | Continue r' h' output' index' =>
          read_loop direct item rest r' h' output' index'
      | Return e r' h' => (Err e, r', h')
      end
  end.

(** [ByteReader.Read]. *)
Definition Read_as {A : Type} (direct item : RNode -> A)
    (r : ByteReader) (h : heap)
  : result (list A) * ByteReader * heap :=
  match Reader r with
  | Err e => (Err e, r, h)
  | Ok input => read_loop direct item (Split input separator) r h [] 0%Z
  end.

Definition Read (r : ByteReader) (h : heap)
  : result (list RNode) * ByteReader * heap :=
  Read_as id id r h.

(** Where an output document came from. *)
Inductive origin : Type := Direct | Unwrapped.

(** [Read], each output document labelled with its origin. *)
Definition Read_labelled (r : ByteReader) (h : heap)
  : result (list (origin * RNode)) * ByteReader * heap :=
  Read_as (pair Direct) (pair Unwrapped) r h.

(** The map [decode] annotates from, and the store it leaves, when it
    gets a document with content at [index]. *)
Definition stamp_loc (r : ByteReader) (h : heap) : loc :=
  match SetAnnotations r with Some l => l | None => fresh (dom h) end.

Definition stamp_heap (r : ByteReader) (h : heap) (index : Z) : heap :=
  let l := stamp_loc r h in
  let h1 := match SetAnnotations r with Some _ => h | None => <[l := ∅]> h end in
  if OmitReaderAnnotations r then h1
  else map_store h1 l IndexAnnotation (Sprintf_d index).

(** What [Read] records of a wrapping list, and the items it takes out of
    it. *)
Definition envelope_reader (r1 : ByteReader) (node : RNode) : ByteReader :=
  let r2 := with_Wrapping r1 (MetaKind (GetMeta node)) (ApiVersion (GetMeta node)) in
  match Field node "functionConfig" with
  | Some fc => with_FunctionConfig r2 (Some (MapValue fc))
  | None => r2
  end.

Definition envelope_items {A} (item : RNode -> A) (node : RNode) : list A :=
  match Field node "items" with
  | Some items => map (fun c => item (NewRNode c)) (RContent (MapValue items))
  | None => []
  end.

(** The documents of a labelled output that were appended as read. *)
Definition is_direct (p : origin * RNode) : bool :=
  match fst p with Direct => true | Unwrapped => false end.

Definition direct_documents (out : list (origin * RNode)) : list RNode :=
  map snd (List.filter is_direct out).

(** A segment in which the decoder finds a document with content: the
    segments whose document [decode] goes on to annotate. *)
Definition holds_document (text : string) : bool :=
  match Decode text with
  | Ok node =>
      match isEmptyDocument node with
      | Ok false => true
      | _ => false
      end
  | Err _ => false
  end.

(** A segment in which the decoder finds the end of the input, or an
    empty document. *)
Definition is_blank (text : string) : bool :=
  match Decode text with
  | Err io_EOF => true
  | Err _ => false
  | Ok node =>
      match isEmptyDocument node with
      | Ok true => true
      | _ => false
      end
  end.

(** The index annotations of the documents appended as read count up
    from zero, and the running index is their number. *)
Definition counted (out : list (origin * RNode)) (index : Z) : Prop :=
  index = Z.of_nat (length (direct_documents out)) /\
  map (GetAnnotation IndexAnnotation) (direct_documents out)
  = map (fun i => Some (Sprintf_d (Z.of_nat i)))
        (seq 0 (length (direct_documents out))).

(** What a read that started from [r0], [h0] has done to the map behind
    [SetAnnotations] when it has annotated a document: the reader holds
    the map at [l], which is the map it was given if it was given one and
    a new one otherwise; the map is the old one with the index entry for
    [i]; no other map has changed. *)
Definition wrote_index (r0 : ByteReader) (h0 : heap) (l : loc) (i : Z)
    (r : ByteReader) (h : heap) : Prop :=
  SetAnnotations r = Some l /\
  match SetAnnotations r0 with Some l0 => l = l0 | None => h0 !! l = None end /\
  deref h l = <[IndexAnnotation := Sprintf_d i]> (deref h0 l) /\
  h !! l = Some (deref h l) /\
  forall l', l' <> l -> h !! l' = h0 !! l'.

Definition untouched (r0 : ByteReader) (h0 : heap) (r : ByteReader) (h : heap)
  : Prop :=
  SetAnnotations r = SetAnnotations r0 /\ h = h0.

(** The reader annotates, and has written nothing yet or has written. *)
Definition after (r0 : ByteReader) (h0 : heap) (r : ByteReader) (h : heap) : Prop :=
  OmitReaderAnnotations r = false /\
  (untouched r0 h0 r h \/ exists l i, wrote_index r0 h0 l i r h).

(** With [OmitReaderAnnotations] true no map changes: the contents of the
    maps are those the read started from, and a reader that holds a map
    keeps it and the store. *)
Definition maps_kept (r0 : ByteReader) (h0 : heap) (r : ByteReader) (h : heap)
  : Prop :=
  OmitReaderAnnotations r = true /\
  (forall l, deref h l = deref h0 l) /\
  (forall l0, SetAnnotations r0 = Some l0 -> SetAnnotations r = Some l0 /\ h = h0).

(** [ByteReadWriter.Read]: a new [ByteReader] reads, and what it holds of
    a wrapping list is assigned to the read-writer, whether it fails or not. *)
Definition ByteReadWriter_Read (rw : ByteReadWriter) (h : heap)
  : result (list RNode) * ByteReadWriter * heap :=
  let b := mkByteReader (brw_Reader rw) (brw_OmitReaderAnnotations rw)
             None None "" "" in
  let '(val, b', h') := Read b h in
  (val,
   mkByteReadWriter (brw_Reader rw) (brw_OmitReaderAnnotations rw)
     (brw_KeepReaderAnnotations rw) (FunctionConfig b') (WrappingApiVersion b')
     (WrappingKind b'),
   h').

(** No document of the segment is a wrapping list. *)
Definition plain (text : string) : Prop :=
  forall doc, Decode text = Ok doc -> is_wrapping_list (NewRNode doc) = false.

End ByteReader.

(* --------------------------------------------------------------------- *)
(** *** pkgio_reader.go *)
(* --------------------------------------------------------------------- *)

(** [os.FileInfo], the two methods the sources call. *)
Record FileInfo : Type := mkFileInfo { Name : string; IsDir : bool }.

(** What [filepath.Walk] finds at a path: [os.Lstat] fails, or gives the
    file's info; for a directory, [names] is what reading its entries
    gives, each name with what is found at it. *)
Inductive Walked : Type :=
  | LstatError (err : error)
  | Entry (info : FileInfo) (names : result (list (string * Walked))).

(** [LocalPackageReader]. *)
Record LocalPackageReader : Type := mkLocalPackageReader {
  lpr_Kind : string;
  lpr_PackagePath : string;
  lpr_PackageFileName : string;
  lpr_MatchFilesGlob : list string;
  lpr_IncludeSubpackages : bool;
  lpr_ErrorIfNonResources : bool;
  lpr_OmitReaderAnnotations : bool;
  lpr_SetAnnotations : option loc
}.

Definition lpr_with_PackagePath (r : LocalPackageReader) (p : string) :=
  mkLocalPackageReader (lpr_Kind r) p (lpr_PackageFileName r)
    (lpr_MatchFilesGlob r) (lpr_IncludeSubpackages r)
    (lpr_ErrorIfNonResources r) (lpr_OmitReaderAnnotations r)
    (lpr_SetAnnotations r).

Definition lpr_with_MatchFilesGlob (r : LocalPackageReader) (g : list string) :=
  mkLocalPackageReader (lpr_Kind r) (lpr_PackagePath r) (lpr_PackageFileName r)
    g (lpr_IncludeSubpackages r) (lpr_ErrorIfNonResources r)
    (lpr_OmitReaderAnnotations r) (lpr_SetAnnotations r).

Definition lpr_with_SetAnnotations (r : LocalPackageReader) (l : option loc) :=
  mkLocalPackageReader (lpr_Kind r) (lpr_PackagePath r) (lpr_PackageFileName r)
    (lpr_MatchFilesGlob r) (lpr_IncludeSubpackages r)
    (lpr_ErrorIfNonResources r) (lpr_OmitReaderAnnotations r) l.

(** [LocalPackageWriter], the fields [LocalPackageReadWriter.Write] sets. *)
Record LocalPackageWriter : Type := mkLocalPackageWriter {
  lpw_PackagePath : string;
  lpw_ClearAnnotations : list string;
  lpw_KeepReaderAnnotations : bool
}.

(** [LocalPackageReadWriter].  [files] is a [sets.String]; the nil set is
    the empty set. *)
Record LocalPackageReadWriter : Type := mkLocalPackageReadWriter {
  rw_Kind : string;
  rw_KeepReaderAnnotations : bool;
  rw_PackagePath : string;
  rw_PackageFileName : string;
  rw_MatchFilesGlob : list string;
  rw_IncludeSubpackages : bool;
  rw_ErrorIfNonResources : bool;
  rw_OmitReaderAnnotations : bool;
  rw_SetAnnotations : option loc;
  rw_NoDeleteFiles : bool;
  files : gset string
}.

Definition rw_with_files (r : LocalPackageReadWriter) (f : gset string) :=
  mkLocalPackageReadWriter (rw_Kind r) (rw_KeepReaderAnnotations r)
    (rw_PackagePath r) (rw_PackageFileName r) (rw_MatchFilesGlob r)
    (rw_IncludeSubpackages r) (rw_ErrorIfNonResources r)
    (rw_OmitReaderAnnotations r) (rw_SetAnnotations r) (rw_NoDeleteFiles r) f.

Definition rw_with_PackageFileName_Omit (r : LocalPackageReadWriter)
    (name : string) (omit : bool) :=
  mkLocalPackageReadWriter (rw_Kind r) (rw_KeepReaderAnnotations r)
    (rw_PackagePath r) name (rw_MatchFilesGlob r)
    (rw_IncludeSubpackages r) (rw_ErrorIfNonResources r)
    omit (rw_SetAnnotations r) (rw_NoDeleteFiles r) (files r).

Definition defaultMatch : list string := ["*.yaml"; "*.yml"].

(** The globs a read matches file names against. *)
Definition globs_of (r : LocalPackageReader) : list string :=
  if (length (lpr_MatchFilesGlob r) =? 0)%nat then defaultMatch
  else lpr_MatchFilesGlob r.

(** The reader but for the map behind [SetAnnotations]. *)
Definition same_settings (r0 r : LocalPackageReader) : Prop :=
  lpr_with_SetAnnotations r None = lpr_with_SetAnnotations r0 None.

(** What the function passed to [filepath.Walk] in
    [LocalPackageReader.Read] closes over and assigns: [operand],
    [pathRelativeTo] and the reader [r] itself, a copy of the receiver. *)
Record walk_state : Type := mkWalkState {
  operand : list RNode;
  pathRelativeTo : string;
  reader : LocalPackageReader
}.

Section Walk.

Variable filepath_Join : string -> string -> string.

Context {S : Type}.
Variable walkFn : string -> option FileInfo -> option error -> S -> option error * S.

(** [filepath.walk] of the Go library, with the loop over the names of a
    directory in it.  [found] is what [lstat] gave the caller for [path];
    where [lstat] failed the caller hands the error to [walkFn] itself. *)
Fixpoint walk (path : string) (found : Walked) (s : S) {struct found}
  : option error * S :=
  match found with
  | LstatError e => walkFn path None (Some e) s
  | Entry info names =>
      if negb (IsDir info) then walkFn path (Some info) None s
      else
        let err := match names with Err e => Some e | Ok _ => None end in
        let '(err1, s1) := walkFn path (Some info) err s in
        match names, err1 with
        | Ok entries, None =>
            (fix each (entries : list (string * Walked)) (s : S) {struct entries}
               : option error * S :=
               match entries with
               | [] => (None, s)
               | (name, found') :: rest =>
                   let filename := filepath_Join path name in
                   match walk filename found' s with
                   | (Some err, s') =>
                       let is_dir :=
                         match found' with
                         | Entry fileInfo _ => IsDir fileInfo
                         | LstatError _ => true
                         end in
                       if negb is_dir || bool_decide (err <> filepath_SkipDir)
                       then (Some err, s') else each rest s'
                   | (None, s') => each rest s'
                   end
               end) entries s1
        | _, _ => (err1, s1)
        end
  end.

(** [filepath.Walk]. *)
Definition Walk (root : string) (found : Walked) (s : S) : option error * S :=
  let '(err, s') := walk root found s in
  if bool_decide (err = Some filepath_SkipDir) then (None, s') else (err, s').

End Walk.

(** The files a walk comes to: what is found that is no directory, at the
    root or below directories whose names can be read. *)
Fixpoint files_of (found : Walked) : list FileInfo :=
  match found with
  | LstatError _ => []
  | Entry info names =>
      if negb (IsDir info) then [info]
      else
        match names with
        | Err _ => []
        | Ok entries =>
            (fix each (entries : list (string * Walked)) : list FileInfo :=
               match entries with
               | [] => []
               | (_, found') :: rest => files_of found' ++ each rest
               end) entries
        end
  end.

Section Package.

Variable Decode : string -> result Node.

(** [kioutil.IndexAnnotation], [kioutil.PathAnnotation] and
    [kioutil.PackageAnnotation], declared outside these files. *)
Variable IndexAnnotation PathAnnotation PackageAnnotation : string.

(** [kioutil.GetFileAnnotations], declared outside these files: the path
    and index annotations of a node. *)
Variable GetFileAnnotations : RNode -> result (string * string).

(** Package path/filepath of the Go library. *)
Variable filepath_Join : string -> string -> string.
Variable filepath_Clean : string -> string.
Variable filepath_Dir : string -> string.
Variable filepath_Rel : string -> string -> result string.
Variable filepath_Match : string -> string -> result bool.

(** The file system as a read finds it: [os.Stat] and [os.IsNotExist],
    and [os.Open], which fails or gives a file whose bytes are then
    copied, or fail to be. *)
Variable os_Stat : string -> option error.
Variable os_IsNotExist : error -> bool.
Variable os_Open : string -> result (result string).

(** The file system as a write changes it: [os.Remove], and
    [LocalPackageWriter.Write], declared outside these files. *)
Variable FS : Type.
Variable os_Remove : string -> FS -> option error * FS.
Variable LocalPackageWriter_Write :
  LocalPackageWriter -> list RNode -> FS -> option error * FS.

(** The order in which [range] runs over the members of a set or the keys
    of a map: Go leaves it open. *)
Variable range_order : gset string -> list string.

(** [LocalPackageReader.shouldSkipFile]: true when the file is in scope. *)
Fixpoint shouldSkipFile_loop (globs : list string) (info : FileInfo) : result bool :=
  match globs with
  | [] => Ok false
  | g :: rest =>
      match filepath_Match g (Name info) with
      | Err err => Err err
      | Ok true => Ok true
      | Ok false => shouldSkipFile_loop rest info
      end
  end.

Definition shouldSkipFile (r : LocalPackageReader) (path : string) (info : FileInfo)
  : result bool :=
  shouldSkipFile_loop (lpr_MatchFilesGlob r) info.

(** [LocalPackageReader.shouldSkipDir]. *)
Definition shouldSkipDir (r : LocalPackageReader) (path : string) (info : FileInfo)
  : option error :=
  if String.eqb (lpr_PackageFileName r) "" then None
  else
    match os_Stat (filepath_Join path (lpr_PackageFileName r)) with
    | Some err => if os_IsNotExist err then None else Some err
    | None => if negb (lpr_IncludeSubpackages r) then Some filepath_SkipDir else None
    end.

(** [LocalPackageReader.initReaderAnnotations]. *)
Definition initReaderAnnotations (r : LocalPackageReader) (h : heap)
    (path : string) (info : FileInfo) : LocalPackageReader * heap :=
  let '(l, h1) :=
    match lpr_SetAnnotations r with
    | Some l => (l, h)
    | None => map_alloc h
    end in
  let r1 := lpr_with_SetAnnotations r (Some l) in
  if negb (lpr_OmitReaderAnnotations r)
  then (r1, map_store (map_store h1 l PackageAnnotation (filepath_Dir path))
                      l PathAnnotation path)
  else (r1, h1).

(** [LocalPackageReader.readFile]. *)
Definition readFile (r : LocalPackageReader) (h : heap) (path : string)
    (info : FileInfo) : result (list RNode) * heap :=
  match os_Open path with
  | Err err => (Err err, h)
  | Ok f =>
      let rr := mkByteReader f (lpr_OmitReaderAnnotations r)
                  (lpr_SetAnnotations r) None "" "" in
      let '(res, _, h') := Read Decode IndexAnnotation rr h in
      (res, h')
  end.

(** The function [LocalPackageReader.Read] passes to [filepath.Walk]. *)
Definition Read_walkFn (path : string) (info : option FileInfo)
    (err : option error) (s : walk_state * heap) : option error * (walk_state * heap) :=
  let '(ws, h) := s in
  let r := reader ws in
  match err, info with
  | Some e, _ => (Some e, s)
  | None, None => (Some nil_dereference, s)
  | None, Some info =>
      let at_root := String.eqb path (lpr_PackagePath r) in
      if at_root && IsDir info
      then (None, (mkWalkState (operand ws) (lpr_PackagePath r) r, h))
      else
        let ws1 :=
          if at_root
          then mkWalkState (operand ws) (filepath_Dir (lpr_PackagePath r)) r
          else ws in
        if IsDir info then (shouldSkipDir r path info, (ws1, h))
        else
          match shouldSkipFile r path info with
          | Err e => (Some e, (ws1, h))
          | Ok false => (None, (ws1, h))
          | Ok true =>
              match filepath_Rel (pathRelativeTo ws1) path with
              | Err e => (Some e, (ws1, h))
              | Ok path' =>
                  let '(r1, h1) := initReaderAnnotations r h path' info in
                  match readFile r1 h1
                          (filepath_Join (pathRelativeTo ws1) path') info with
                  | (Err e, h2) =>
                      (Some e, (mkWalkState (operand ws1) (pathRelativeTo ws1) r1, h2))
                  | (Ok nodes, h2) =>
                      (None,
                       (mkWalkState (operand ws1 ++ nodes) (pathRelativeTo ws1) r1, h2))
                  end
              end
          end
  end.

(** [LocalPackageReader.Read].  The receiver is a value: what the call
    assigns to its fields is lost when it returns, what it stores in the
    map behind [SetAnnotations] is not.  [found] is what the walk finds at
    the package path. *)
Definition LocalPackageReader_Read (r : LocalPackageReader) (found : Walked)
    (h : heap) : list RNode * option error * heap :=
  if String.eqb (lpr_PackagePath r) ""
  then ([], Some (errorString "must specify package path"), h)
  else
    let r1 :=
      if (length (lpr_MatchFilesGlob r) =? 0)%nat
      then lpr_with_MatchFilesGlob r defaultMatch else r in
    let r2 := lpr_with_PackagePath r1 (filepath_Clean (lpr_PackagePath r1)) in
    let '(err, (ws, h')) :=
      Walk filepath_Join Read_walkFn (lpr_PackagePath r2) found
        (mkWalkState [] "" r2, h) in
    (operand ws, err, h').

(** [LocalPackageReadWriter.getFiles]. *)
Fixpoint getFiles_loop (nodes : list RNode) (val : gset string)
  : result (gset string) :=
  match nodes with
  | [] => Ok val
  | n :: rest =>
      match GetFileAnnotations n with
      | Err err => Err err
      | Ok (path, _) => getFiles_loop rest ({[path]} ∪ val)
      end
  end.

Definition getFiles (r : LocalPackageReadWriter) (nodes : list RNode)
  : result (gset string) :=
  getFiles_loop nodes ∅.

(** [p] is the path annotation of one of [nodes]. *)
Definition path_of_some (nodes : list RNode) (p : string) : Prop :=
  exists n index, n ∈ nodes /\ GetFileAnnotations n = Ok (p, index).

(** The reader [LocalPackageReadWriter.Read] builds: it is given the
    package path, the globs, [IncludeSubpackages], [ErrorIfNonResources]
    and the map, and nothing else of the read-writer. *)
Definition rw_reader (r : LocalPackageReadWriter) : LocalPackageReader :=
  mkLocalPackageReader "" (rw_PackagePath r) "" (rw_MatchFilesGlob r)
    (rw_IncludeSubpackages r) (rw_ErrorIfNonResources r) false
    (rw_SetAnnotations r).

(** [LocalPackageReadWriter.Read]. *)
Definition LocalPackageReadWriter_Read (r : LocalPackageReadWriter)
    (found : Walked) (h : heap)
  : result (list RNode) * LocalPackageReadWriter * heap :=
  let '(nodes, err, h') :=
    LocalPackageReader_Read
      (mkLocalPackageReader "" (rw_PackagePath r) "" (rw_MatchFilesGlob r)
         (rw_IncludeSubpackages r) (rw_ErrorIfNonResources r) false
         (rw_SetAnnotations r))
      found h in
  match err with
  | Some e => (Err e, r, h')
  | None =>
      if negb (rw_NoDeleteFiles r) then
        match getFiles r nodes with
        | Err e => (Err e, r, h')
        | Ok fs => (Ok nodes, rw_with_files r fs, h')
        end
      else (Ok nodes, r, h')
  end.

(** The loop over [deleteFiles] in [LocalPackageReadWriter.Write]. *)
Fixpoint remove_each (packagePath : string) (deleteFiles : list string) (fs : FS)
  : option error * FS :=
  match deleteFiles with
  | [] => (None, fs)
  | f :: rest =>
      match os_Remove (filepath_Join packagePath f) fs with
      | (Some err, fs') => (Some err, fs')
      | (None, fs') => remove_each packagePath rest fs'
      end
  end.

(** The keys [LocalPackageReadWriter.Write] collects:
      for k := range r.SetAnnotations { clear = append(clear, k) } *)
Definition SetAnnotations_keys (r : LocalPackageReadWriter) (h : heap)
  : list string :=
  match rw_SetAnnotations r with
  | Some l => range_order (dom (deref h l))
  | None => []
  end.

(** Every file of the list is removed, one after the other, and no
    removal fails: the file system before and after. *)
Fixpoint all_removed (packagePath : string) (l : list string) (fs fs' : FS)
  : Prop :=
  match l with
  | [] => fs' = fs
  | f :: rest =>
      exists fs1,
        os_Remove (filepath_Join packagePath f) fs = (None, fs1) /\
        all_removed packagePath rest fs1 fs'
  end.

(** [LocalPackageReadWriter.Write]. *)
Definition LocalPackageReadWriter_Write (r : LocalPackageReadWriter)
    (nodes : list RNode) (h : heap) (fs : FS)
  : option error * LocalPackageReadWriter * FS :=
  match getFiles r nodes with
  | Err err => (Some err, r, fs)
  | Ok newFiles =>
      let clear := SetAnnotations_keys r h in
      match LocalPackageWriter_Write
              (mkLocalPackageWriter (rw_PackagePath r) clear
                 (rw_KeepReaderAnnotations r))
              nodes fs with
      | (Some err, fs1) => (Some err, r, fs1)
      | (None, fs1) =>
          let deleteFiles := files r ∖ newFiles in
          match remove_each (rw_PackagePath r) (range_order deleteFiles) fs1 with
          | (err, fs2) => (err, r, fs2)
          end
      end
  end.

(** The map [initReaderAnnotations] fills, and the store it leaves. *)
Definition init_loc (r : LocalPackageReader) (h : heap) : loc :=
  match lpr_SetAnnotations r with Some l => l | None => fresh (dom h) end.

(** What [initReaderAnnotations] has done for the file at [path]: the
    reader holds the map at [l], the map it was given if it was given one
    and a new one otherwise; the map has the path and package entries of
    the file and its other entries as before; no other map has changed. *)
Definition wrote_path (r0 : LocalPackageReader) (h0 : heap) (l : loc)
    (path : string) (r : LocalPackageReader) (h : heap) : Prop :=
  r = lpr_with_SetAnnotations r0 (Some l) /\
  match lpr_SetAnnotations r0 with Some l0 => l = l0 | None => h0 !! l = None end /\
  deref h l !! PathAnnotation = Some path /\
  deref h l !! PackageAnnotation = Some (filepath_Dir path) /\
  (forall k, k <> PathAnnotation -> k <> PackageAnnotation ->
     deref h l !! k = deref h0 l !! k) /\
  forall l', l' <> l -> h !! l' = h0 !! l'.

(** The directory paths are made relative to when the walk is at [path]. *)
Definition relative_to (ws : walk_state) (path : string) : string :=
  if String.eqb path (lpr_PackagePath (reader ws))
  then filepath_Dir (lpr_PackagePath (reader ws))
  else pathRelativeTo ws.

End Package.

End kio.

(* ===================================================================== *)
(** ** Fixtures: a table decoder and the scenarios of the specification *)
(* ===================================================================== *)

Module scenarios.
Import gostd yaml kio.

Definition nl : string := String "010" "".

(** A decoder given by a finite table: a text in the table decodes to its
    entry, any other text holds no document. *)
Fixpoint table_Decode (tbl : list (string * result Node)) (text : string)
  : result Node :=
  match tbl with
  | [] => Err io_EOF
  | (k, v) :: rest => if String.eqb k text then v else table_Decode rest text
  end.

Definition scalar (tag v : string) : Node := mkNode ScalarNode tag v [].
Definition str (v : string) : Node := scalar "!!str" v.
Definition int (v : string) : Node := scalar "!!int" v.
Definition mapping (c : list Node) : Node := mkNode MappingNode "!!map" "" c.
Definition sequence (c : list Node) : Node := mkNode SequenceNode "!!seq" "" c.
Definition document (root : Node) : Node := mkNode DocumentNode "" "" [root].

Definition doc_a : Node := document (mapping [str "a"; int "1"]).
Definition doc_b : Node := document (mapping [str "b"; int "2"]).
Definition doc_null : Node := document (scalar "!!null" "").

Definition text_list : string :=
  "kind: ResourceList" +:+ nl +:+ "apiVersion: kyaml.kustomize.dev/v1alpha1"
  +:+ nl +:+ "items:" +:+ nl +:+ "- a: 1" +:+ nl +:+ "- b: 2" +:+ nl.

Definition list_root : Node :=
  mapping [str "kind"; str "ResourceList";
           str "apiVersion"; str "kyaml.kustomize.dev/v1alpha1";
           str "items";
           sequence [mapping [str "a"; int "1"]; mapping [str "b"; int "2"]]].

Definition doc_list : Node := document list_root.

Definition decoder : string -> result Node :=
  table_Decode
    [ ("a: 1", Ok doc_a);
      ("a: 1" +:+ nl, Ok doc_a);
      ("b: 2" +:+ nl, Ok doc_b);
      ("---", Ok doc_null);
      (text_list, Ok doc_list) ].

Definition index_key : string := "config.kubernetes.io/index".
Definition path_key : string := "config.kubernetes.io/path".
Definition package_key : string := "config.kubernetes.io/package".

Definition reader_of (input : string) : ByteReader :=
  mkByteReader (Ok input) false None None "" "".

(** The two-document stream of the specification. *)
Definition two_documents : string := "a: 1" +:+ separator +:+ "b: 2" +:+ nl.

(** The same stream between a leading and a trailing separator. *)
Definition padded_documents : string :=
  separator +:+ "a: 1" +:+ separator +:+ "b: 2" +:+ nl +:+ separator.

(** A stream with a leading separator, a wrapping list between two
    documents, and no trailing separator. *)
Definition mixed_documents : string :=
  separator +:+ "a: 1" +:+ separator +:+ text_list +:+ separator
    +:+ "b: 2" +:+ nl.

(** The labelled output of [Read] on a stream, under the table decoder. *)
Definition labelled_of (input : string) : list (origin * RNode) :=
  match Read_labelled decoder index_key (reader_of input) ∅ with
  | (Ok out, _, _) => out
  | _ => []
  end.

(** The wrapping list after [decode] has annotated it with index [i]. *)
Definition with_index (root : Node) (i : string) : Node :=
  set_Content root
    (Content root ++
     [NewScalarNode "metadata";
      mkNode MappingNode "" ""
        [NewScalarNode "annotations";
         mkNode MappingNode "" ""
           [NewScalarNode index_key; NewScalarNode i]]]).

Definition list_items : MapNode :=
  mkMapNode (NewRNode (str "items"))
    (NewRNode (sequence [mapping [str "a"; int "1"]; mapping [str "b"; int "2"]])).

(** A reader that was handed a map by its caller, and the store with
    that map in it. *)
Definition callers_map : loc := 1%positive.
Definition callers_heap : heap := {[ callers_map := {[ "team" := "config" ]} ]}.
Definition reader_with_map (input : string) : ByteReader :=
  mkByteReader (Ok input) false (Some callers_map) None "" "".

(** A flat package [pkg] holding [a.yaml], [b.yaml] and [notes.txt], and
    the path functions on the paths that occur in it. *)
Definition flat_Join (dir name : string) : string := dir +:+ "/" +:+ name.
Definition flat_Clean (p : string) : string := p.
Definition flat_Dir (p : string) : string := ".".
Definition flat_Rel (base target : string) : result string :=
  if String.prefix (base +:+ "/") target
  then Ok (string_drop (String.length base + 1) target)
  else Err (errorString "Rel: can't make the target relative to the base").
Definition flat_Match (pattern name : string) : result bool :=
  match pattern with
  | String "*" suffix => Ok (HasSuffix name suffix)
  | _ => Ok (String.eqb pattern name)
  end.
Definition not_exist : error := errorString "no such file or directory".
Definition flat_Stat (p : string) : option error := Some not_exist.
Definition flat_IsNotExist (e : error) : bool := bool_decide (e = not_exist).
Definition flat_Open (p : string) : result (result string) :=
  if String.eqb p "pkg/a.yaml" then Ok (Ok two_documents)
  else if String.eqb p "pkg/b.yaml" then Ok (Ok ("b: 2" +:+ nl))
  else Err not_exist.

Definition file (name : string) : Walked := Entry (mkFileInfo name false) (Ok []).
Definition pkg : Walked :=
  Entry (mkFileInfo "pkg" true)
    (Ok [("a.yaml", file "a.yaml"); ("b.yaml", file "b.yaml");
         ("notes.txt", file "notes.txt")]).

Definition pkg_reader : LocalPackageReader :=
  mkLocalPackageReader "" "pkg" "" defaultMatch false false false None.

Definition pkg_read_writer : LocalPackageReadWriter :=
  mkLocalPackageReadWriter "" false "pkg" "" [] false false false None false ∅.

(** [kioutil.GetFileAnnotations] as the annotations under the two keys. *)
Definition file_annotations (n : RNode) : result (string * string) :=
  Ok (default "" (GetAnnotation path_key n), default "" (GetAnnotation index_key n)).

(** A file system as the set of the paths of its files: removing a file
    that is not there fails; the package writer leaves a file at the path
    of every document. *)
Definition set_Remove (p : string) (fs : gset string) : option error * gset string :=
  if bool_decide (p ∈ fs) then (None, fs ∖ {[p]}) else (Some not_exist, fs).
Definition set_Write (w : LocalPackageWriter) (nodes : list RNode) (fs : gset string)
  : option error * gset string :=
  (None,
   fs ∪ list_to_set
          (map (fun n => flat_Join (lpw_PackagePath w)
                           (default "" (GetAnnotation path_key n))) nodes)).

(** The two-document stream read by the reader that was handed a map. *)
Definition read_two : result (list RNode) * ByteReader * heap :=
  Eval vm_compute in
    Read decoder index_key (reader_with_map two_documents) callers_heap.

(** The walk of [pkg] as it arrives at a file of the package. *)
Definition at_pkg : walk_state := mkWalkState [] "pkg" pkg_reader.

(** The read-writer on the flat package. *)
Definition pkg_Read (r : LocalPackageReadWriter) (h : heap)
  : result (list RNode) * LocalPackageReadWriter * heap :=
  LocalPackageReadWriter_Read decoder index_key path_key package_key
    file_annotations flat_Join flat_Clean flat_Dir flat_Rel flat_Match
    flat_Stat flat_IsNotExist flat_Open r pkg h.

Definition pkg_Write (r : LocalPackageReadWriter) (nodes : list RNode)
    (h : heap) (fs : gset string)
  : option error * LocalPackageReadWriter * gset string :=
  LocalPackageReadWriter_Write file_annotations flat_Join (gset string)
    set_Remove set_Write elements r nodes h fs.

(** What reading [pkg] gives, and the files of [pkg]. *)
Definition pkg_read : result (list RNode) * LocalPackageReadWriter * heap :=
  Eval vm_compute in pkg_Read pkg_read_writer ∅.

Definition pkg_nodes : list RNode :=
  Eval vm_compute in match pkg_read.1.1 with Ok nodes => nodes | Err _ => [] end.

Definition after_read : LocalPackageReadWriter := Eval vm_compute in pkg_read.1.2.
Definition heap_after_read : heap := Eval vm_compute in pkg_read.2.

Definition pkg_files : gset string :=
  {[ "pkg/a.yaml"; "pkg/b.yaml"; "pkg/notes.txt" ]}.

(** The documents read from [a.yaml]: those of [b.yaml] are dropped. *)
Definition kept_nodes : list RNode := Eval vm_compute in take 2 pkg_nodes.


(** A store with one scalar node, and the pointer to it. *)
Definition the_node : ptr := 1%positive.
Definition store_of (v : string) : store := {[ the_node := str v ]}.

(** A stand-in for package regexp in which a pattern is a literal text:
    a pattern with an open parenthesis does not compile. *)
Definition literal_Compile (pattern : string) : result string :=
  if String.eqb pattern "(" then Err (errorString "missing closing )")
  else Ok pattern.
Definition literal_ReplaceAll (re src repl : string) : string :=
  Replace src re repl (-1).

(** The callback of a declaration [{kind: <kind>, value: "dev-"}]. *)
Definition meta_of_kind (kind : string) (m : ResourceMeta)
  : ResourceMeta * option error :=
  (mkResourceMeta (ApiVersion m) kind, None).
Definition fill_value (f : Instance) : Instance * option error :=
  match f with
  | PrefixSetterDecl s => (PrefixSetterDecl (mkPrefixSetter "PrefixSetter" "dev-"), None)
  | SuffixSetterDecl s => (SuffixSetterDecl (mkSuffixSetter "SuffixSetter" "dev-"), None)
  | _ => (f, None)
  end.

(** A filter that answers with another node than the one it is given,
    as a getter does, and one that finds nothing. *)
Definition other_node : ptr := 2%positive.
Definition to_other_node : Filter := fun _ st => (Some other_node, None, st).
Definition no_match : Filter := fun _ st => (None, None, st).

(** The streams above read with their origins, and one segment decoded by
    the reader that was handed a map. *)
Definition labelled_two : result (list (origin * RNode)) * ByteReader * heap :=
  Eval vm_compute in
    Read_labelled decoder index_key (reader_with_map two_documents) callers_heap.
Definition labelled_mixed : result (list (origin * RNode)) * ByteReader * heap :=
  Eval vm_compute in
    Read_labelled decoder index_key (reader_of mixed_documents) ∅.
Definition documents_of {A} (res : result (list A)) : list A :=
  match res with Ok out => out | Err _ => [] end.
Definition decode_a : result (option RNode) * ByteReader * heap :=
  Eval vm_compute in
    decode decoder index_key (reader_with_map two_documents) callers_heap 0 "a: 1".
Definition node_a : RNode :=
  Eval vm_compute in
    match decode_a.1.1 with Ok (Some n) => n | _ => NewRNode doc_a end.

(** A reader that does not annotate, handed the same map. *)
Definition reader_omitting (input : string) : ByteReader :=
  mkByteReader (Ok input) true (Some callers_map) None "" "".
Definition read_omitting : result (list RNode) * ByteReader * heap :=
  Eval vm_compute in
    Read decoder index_key (reader_omitting two_documents) callers_heap.

(** [kioutil.GetFileAnnotations] as one that fails for a document without
    a path annotation. *)
Definition strict_annotations (n : RNode) : result (string * string) :=
  match GetAnnotation path_key n with
  | Some p => Ok (p, default "" (GetAnnotation index_key n))
  | None => Err (errorString "missing path annotation")
  end.

(** The flat package with a subpackage [sub] between its files: [sub]
    holds the marker file [Kptfile] and a file that cannot be opened. *)
Definition sub_package : Walked :=
  Entry (mkFileInfo "sub" true) (Ok [("c.yaml", file "c.yaml")]).
Definition pkg_with_sub : Walked :=
  Entry (mkFileInfo "pkg" true)
    (Ok [("a.yaml", file "a.yaml"); ("sub", sub_package); ("b.yaml", file "b.yaml");
         ("notes.txt", file "notes.txt")]).
Definition marker_Stat (p : string) : option error :=
  if String.eqb p "pkg/sub/Kptfile" then None else Some not_exist.
Definition marker_reader : LocalPackageReader :=
  mkLocalPackageReader "" "pkg" "Kptfile" [] false false false None.
Definition marker_Read (found : Walked) : list RNode * option error * heap :=
  LocalPackageReader_Read decoder index_key path_key package_key flat_Join
    flat_Clean flat_Dir flat_Rel flat_Match marker_Stat flat_IsNotExist flat_Open
    marker_reader found ∅.

(** A package without a file that the default globs match. *)
Definition pkg_of_notes : Walked :=
  Entry (mkFileInfo "pkg" true)
    (Ok [("notes.txt", file "notes.txt");
         ("docs", Entry (mkFileInfo "docs" true) (Ok [("README.md", file "README.md")]))]).

(** The read-writer that is not to delete files, and one without a path. *)
Definition pkg_keeper : LocalPackageReadWriter :=
  mkLocalPackageReadWriter "" false "pkg" "" [] false false false None true ∅.
Definition keeper_read : result (list RNode) * LocalPackageReadWriter * heap :=
  Eval vm_compute in pkg_Read pkg_keeper ∅.
Definition no_path : LocalPackageReadWriter :=
  mkLocalPackageReadWriter "" false "" "" [] false false false None false ∅.

(** [a.yaml] read as the walk reads it, with the origins of its
    documents. *)
Definition info_a : FileInfo := mkFileInfo "a.yaml" false.
Definition heap_at_a : heap :=
  Eval vm_compute in
    (initReaderAnnotations path_key package_key flat_Dir (reader at_pkg) ∅
       "a.yaml" info_a).2.
Definition labelled_a : result (list (origin * RNode)) * ByteReader * heap :=
  Eval vm_compute in
    Read_labelled decoder index_key
      (mkByteReader (Ok two_documents) false (Some (init_loc (reader at_pkg) ∅))
         None "" "")
      heap_at_a.

(** A read-writer that holds what an earlier read found of a wrapping
    list, and a document with an annotation set. *)
Definition wrapped_before : ByteReadWriter :=
  mkByteReadWriter (Ok two_documents) false false (Some (NewRNode doc_b))
    ResourceListApiVersion ResourceListKind.
Definition annotated_a : RNode :=
  Eval vm_compute in
    match SetAnnotation "owner" "ops" (NewRNode doc_a) with
    | Ok n => n
    | Err _ => NewRNode doc_a
    end.

End scenarios.

(* ===================================================================== *)
(** ** Facts about the library functions *)
(* ===================================================================== *)

Module gostd_facts.
Import gostd.
#[local] Arguments String.append !_ _ / : simpl nomatch.
#[local] Arguments String.prefix : simpl never.

Lemma length_append (s1 s2 : string) :
  String.length (s1 +:+ s2) = String.length s1 + String.length s2.
Proof. induction s1 as [|c s1 IH]; simpl; [reflexivity | now rewrite IH]. Qed.

Lemma substring_all (v : string) : substring 0 (String.length v) v = v.
Proof. induction v as [|c v IH]; simpl; [reflexivity | now rewrite IH]. Qed.

Lemma substring_front (v s : string) :
  substring 0 (String.length v) (v +:+ s) = v.
Proof.
  induction v as [|c v IH]; simpl.
  - destruct s; reflexivity.
  - now rewrite IH.
Qed.

Lemma substring_back (s v : string) :
  substring (String.length s) (String.length v) (s +:+ v) = v.
Proof. induction s as [|c s IH]; simpl; [apply substring_all | exact IH]. Qed.

Lemma HasPrefix_append (v s : string) : HasPrefix (v +:+ s) v = true.
Proof.
  unfold HasPrefix. rewrite substring_front, String.eqb_refl, length_append.
  apply andb_true_iff; split; [apply Nat.leb_le; lia | reflexivity].
Qed.

Lemma HasSuffix_append (s v : string) : HasSuffix (s +:+ v) v = true.
Proof.
  unfold HasSuffix. rewrite length_append.
  replace (String.length s + String.length v - String.length v)
    with (String.length s) by lia.
  rewrite substring_back, String.eqb_refl.
  apply andb_true_iff; split; [apply Nat.leb_le; lia | reflexivity].
Qed.


Lemma sort_insert_perm x l : sort_insert x l ≡ₚ x :: l.
Proof.
  induction l as [|y l IH]; simpl; [reflexivity|].
  destruct (String.leb x y); [reflexivity|].
  rewrite IH. apply Permutation_swap.
Qed.

Lemma sort_Strings_perm l : sort_Strings l ≡ₚ l.
Proof.
  induction l as [|x l IH]; simpl; [reflexivity|].
  rewrite sort_insert_perm. now rewrite IH.
Qed.

Lemma sort_insert_sorted x l : Sorted le_string l -> Sorted le_string (sort_insert x l).
Proof.
  induction 1 as [|y l Hs IH Hhd]; simpl.
  - repeat constructor.
  - destruct (String.leb x y) eqn:E.
    + constructor; [constructor; assumption | constructor; exact E].
    + constructor; [exact IH|].
      destruct (String.leb_total x y) as [F|F]; [congruence|].
      destruct Hhd as [|z l' Hyz]; simpl.
      * constructor; exact F.
      * destruct (String.leb x z); constructor; assumption.
Qed.

Lemma sort_Strings_sorted l : Sorted le_string (sort_Strings l).
Proof.
  induction l as [|x l IH]; simpl; [constructor | now apply sort_insert_sorted].
Qed.

Lemma prefix_drop sep s :
  String.prefix sep s = true -> s = sep +:+ string_drop (String.length sep) s.
Proof.
  revert s. induction sep as [|c sep IH]; intros s H.
  - reflexivity.
  - destruct s as [|d s]; [discriminate|].
    change (String.prefix (String c sep) (String d s))
      with (if Ascii.ascii_dec c d then String.prefix sep s else false) in H.
    destruct (Ascii.ascii_dec c d) as [->|]; [|discriminate].
    simpl. f_equal. apply IH, H.
Qed.

Lemma append_assoc (a b c : string) : (a +:+ b) +:+ c = a +:+ (b +:+ c).
Proof. induction a; simpl; congruence. Qed.

Lemma append_empty_r (a : string) : a +:+ "" = a.
Proof. induction a; simpl; congruence. Qed.

Lemma split_scan_nonempty sep skip cur s : split_scan sep skip cur s <> [].
Proof.
  revert skip cur. induction s as [|c s IH]; intros skip cur.
  - destruct skip; simpl; done.
  - simpl. destruct skip; [|apply IH].
    destruct (String.prefix sep (String c s)); [done | apply IH].
Qed.

Lemma Join_cons e l sep : l <> [] -> Join (e :: l) sep = e +:+ sep +:+ Join l sep.
Proof. destruct l; [congruence | reflexivity]. Qed.

Lemma Join_split_scan sep skip cur s :
  sep <> "" ->
  Join (split_scan sep skip cur s) sep = cur +:+ string_drop skip s.
Proof.
  intros Hsep. revert skip cur.
  induction s as [|c s IH]; intros skip cur; simpl.
  - destruct skip; simpl; now rewrite append_empty_r.
  - destruct skip as [|k]; [|apply IH].
    destruct (String.prefix sep (String c s)) eqn:E.
    + rewrite Join_cons by apply split_scan_nonempty.
      rewrite IH. simpl.
      apply prefix_drop in E.
      destruct sep as [|c0 sep']; [congruence|].
      simpl in E. simpl. rewrite Nat.sub_0_r.
      injection E as -> E. rewrite E at 2. reflexivity.
    + rewrite IH. simpl. rewrite append_assoc. reflexivity.
Qed.

Lemma Join_Split s sep : sep <> "" -> Join (Split s sep) sep = s.
Proof.
  intros H. unfold Split. destruct sep; [congruence|].
  now rewrite Join_split_scan.
Qed.

Lemma length_split_scan sep skip cur s :
  length (split_scan sep skip cur s) <= S (String.length s).
Proof.
  revert skip cur. induction s as [|c s IH]; intros skip cur; simpl; [lia|].
  destruct skip as [|k].
  - destruct (String.prefix sep (String c s)); simpl.
    + specialize (IH (String.length sep - 1) ""). lia.
    + specialize (IH 0 (cur +:+ String c "")). lia.
  - specialize (IH k cur). lia.
Qed.

Lemma length_Split s sep : sep <> "" -> length (Split s sep) <= S (String.length s).
Proof.
  intros H. unfold Split. destruct sep; [congruence|]. apply length_split_scan.
Qed.

Lemma replace_scan_zero old new s : replace_scan old new 0 0 s = s.
Proof. destruct s; reflexivity. Qed.

Lemma replace_scan_enough old new (n : nat) skip s :
  count_scan old skip s <= n ->
  replace_scan old new (Z.of_nat n) skip s = replace_scan old new (-1) skip s.
Proof.
  revert n skip. induction s as [|c s IH]; intros n skip H; simpl in *; [reflexivity|].
  destruct skip as [|k]; [|now apply IH].
  destruct (String.prefix old (String c s)) eqn:E.
  - destruct n as [|n]; [lia|].
    replace (Z.of_nat (S n) =? 0)%Z with false by (symmetry; apply Z.eqb_neq; lia).
    replace (Z.of_nat (S n) <? 0)%Z with false by (symmetry; apply Z.ltb_ge; lia).
    simpl (-1 =? 0)%Z. simpl (-1 <? 0)%Z. cbv iota.
    replace (Z.of_nat (S n) - 1)%Z with (Z.of_nat n) by lia.
    f_equal. apply IH. lia.
  - destruct n as [|n].
    + simpl. f_equal. rewrite <- (IH 0%nat 0%nat H). symmetry. apply replace_scan_zero.
    + replace (Z.of_nat (S n) =? 0)%Z with false by (symmetry; apply Z.eqb_neq; lia).
      simpl (-1 =? 0)%Z. cbv iota. f_equal. now apply IH.
Qed.

Lemma Replace_enough s old new (n : nat) :
  old <> "" -> Count s old <= n ->
  Replace s old new (Z.of_nat n) = Replace s old new (-1).
Proof.
  intros Hold H. unfold Replace, Count in *.
  destruct old as [|c old]; [congruence|].
  destruct (String.eqb (String c old) new); [reflexivity|]. simpl orb.
  destruct n as [|n].
  - simpl. rewrite <- (replace_scan_enough _ new 0 0 s H). symmetry. apply replace_scan_zero.
  - replace (Z.of_nat (S n) =? 0)%Z with false by (symmetry; apply Z.eqb_neq; lia).
    now apply replace_scan_enough.
Qed.

Lemma Sprintf_d_inj z1 z2 : Sprintf_d z1 = Sprintf_d z2 -> z1 = z2.
Proof.
  unfold Sprintf_d. intros H.
  assert (Hne : forall z, Z.to_int z <> Decimal.Pos Decimal.Nil /\ Z.to_int z <> Decimal.Neg Decimal.Nil).
  { intros z. destruct z; simpl; split; try discriminate.
    - intros E. injection E as E. apply (DecimalPos.Unsigned.to_uint_nonnil p). exact E. 
    - intros E. injection E as E. apply (DecimalPos.Unsigned.to_uint_nonnil p). exact E. }
  assert (E : Some (Z.to_int z1) = Some (Z.to_int z2)).
  { rewrite <- (NilZero.isi (Z.to_int z1)), <- (NilZero.isi (Z.to_int z2)) by apply Hne.
    now rewrite H. }
  injection E as E. now apply DecimalZ.to_int_inj.
Qed.

End gostd_facts.

(* ===================================================================== *)
(** ** Facts about the document tree *)
(* ===================================================================== *)

Module yaml_facts.
Import gostd yaml.

Lemma bind_Ok {A B} (r : result A) (k : A -> result B) b :
  bind r k = Ok b -> exists a, r = Ok a /\ k a = Ok b.
Proof. destruct r as [a|e]; simpl; [eauto | discriminate]. Qed.

Lemma pairs_ind {A} (P : list A -> Prop) :
  P [] -> (forall x, P [x]) ->
  (forall k v rest, P rest -> P (k :: v :: rest)) ->
  forall l, P l.
Proof.
  intros H0 H1 H2 l.
  enough (P l /\ forall x, P (x :: l)) by tauto.
  induction l as [|y l [IH1 IH2]]; split; auto.
Qed.

Lemma lookup_set_pair_eq name v c c' :
  set_pair name v c = Ok c' ->
  exists k, lookup_pair name c' = Some (k, v).
Proof.
  revert c'. induction c as [|x|k old rest IH] using pairs_ind;
    intros c' H; simpl in H.
  - injection H as <-. simpl. rewrite String.eqb_refl. eauto.
  - discriminate.
  - destruct (String.eqb (Value k) name) eqn:E.
    + injection H as <-. simpl. rewrite E. eauto.
    + apply bind_Ok in H as (rest' & Hr & H). injection H as <-.
      simpl. rewrite E. apply IH, Hr.
Qed.

Lemma lookup_set_pair_ne name name' v c c' :
  name' <> name ->
  set_pair name v c = Ok c' ->
  lookup_pair name' c' = lookup_pair name' c.
Proof.
  intros Hne. revert c'. induction c as [|x|k old rest IH] using pairs_ind;
    intros c' H; simpl in H.
  - injection H as <-. simpl.
    destruct (String.eqb_spec name name'); [congruence | reflexivity].
  - discriminate.
  - destruct (String.eqb (Value k) name) eqn:E.
    + injection H as <-. simpl.
      destruct (String.eqb_spec (Value k) name'); [|reflexivity].
      apply String.eqb_eq in E. congruence.
    + apply bind_Ok in H as (rest' & Hr & H). injection H as <-.
      simpl. destruct (String.eqb (Value k) name'); [reflexivity|].
      apply IH, Hr.
Qed.

Lemma YNode_not_document n :
  NodeKind n <> DocumentNode -> YNode (NewRNode n) = n.
Proof. unfold YNode. simpl. destruct (NodeKind n); congruence. Qed.

Lemma YNode_mapping n : NodeKind n = MappingNode -> YNode (NewRNode n) = n.
Proof. intros H. apply YNode_not_document. congruence. Qed.

Lemma Field_field_of rn name :
  MapValue <$> Field rn name = NewRNode <$> field_of name (YNode rn).
Proof.
  unfold Field, field_of. destruct (NodeKind (YNode rn)); try reflexivity.
  destruct (lookup_pair name (Content (YNode rn))) as [[k v]|]; reflexivity.
Qed.

Lemma in_field_create_spec name k m m' :
  in_field_create name k m = Ok m' ->
  NodeKind m = MappingNode /\ NodeKind m' = MappingNode /\
  (exists v', k (default NewMappingNode (field_of name m)) = Ok v'
              /\ field_of name m' = Some v') /\
  (forall name', name' <> name -> field_of name' m' = field_of name' m) /\
  Tag m' = Tag m.
Proof.
  unfold in_field_create, field_of. destruct (NodeKind m) eqn:K; try discriminate.
  intros H. apply bind_Ok in H as (v' & Hk & H).
  apply bind_Ok in H as (c' & Hc & H). injection H as <-. simpl.
  rewrite K. repeat split.
  - exists v'. split.
    + destruct (lookup_pair name (Content m)) as [[? ?]|]; exact Hk.
    + apply lookup_set_pair_eq in Hc as [k0 ->]. reflexivity.
  - intros name' Hne. now rewrite (lookup_set_pair_ne _ _ _ _ _ Hne Hc).
Qed.

Lemma FieldSetter_spec name v m m' :
  FieldSetter name v m = Ok m' ->
  NodeKind m = MappingNode /\ NodeKind m' = MappingNode /\
  field_of name m' = Some v /\
  (forall name', name' <> name -> field_of name' m' = field_of name' m).
Proof.
  unfold FieldSetter, field_of. destruct (NodeKind m) eqn:K; try discriminate.
  intros H. apply bind_Ok in H as (c' & Hc & H). injection H as <-. simpl.
  rewrite K. repeat split.
  - apply lookup_set_pair_eq in Hc as [k0 ->]. reflexivity.
  - intros name' Hne. now rewrite (lookup_set_pair_ne _ _ _ _ _ Hne Hc).
Qed.

Lemma GetAnnotation_annotation_of key rn :
  GetAnnotation key rn = annotation_of key (YNode rn).
Proof.
  unfold GetAnnotation, annotation_of.
  pose proof (Field_field_of rn "metadata") as H1.
  destruct (Field rn "metadata") as [md|], (field_of "metadata" (YNode rn)) as [m|];
    simpl in *; try discriminate; [|reflexivity].
  injection H1 as H1. rewrite H1.
  pose proof (Field_field_of (NewRNode m) "annotations") as H2.
  destruct (Field (NewRNode m) "annotations") as [an|],
    (field_of "annotations" (YNode (NewRNode m))) as [a|];
    simpl in *; try discriminate; [|reflexivity].
  injection H2 as H2. rewrite H2.
  pose proof (Field_field_of (NewRNode a) key) as H3.
  destruct (Field (NewRNode a) key) as [f|],
    (field_of key (YNode (NewRNode a))) as [x|];
    simpl in *; try discriminate; [|reflexivity].
  injection H3 as H3. now rewrite H3.
Qed.

Lemma on_YNode_spec k rn rn' :
  (forall n n', k n = Ok n' -> NodeKind n' = MappingNode) ->
  on_YNode k rn = Ok rn' ->
  k (YNode rn) = Ok (YNode rn').
Proof.
  intros Hk. unfold on_YNode, YNode.
  destruct (NodeKind (value rn)) eqn:K;
    try (intros H; apply bind_Ok in H as (n' & Hn & H); injection H as <-; simpl;
         rewrite (Hk _ _ Hn); exact Hn).
  destruct (Content (value rn)) as [|root rest] eqn:C;
    intros H; apply bind_Ok in H as (n' & Hn & H); injection H as <-; simpl.
  - rewrite (Hk _ _ Hn); exact Hn.
  - rewrite K. exact Hn.
Qed.

Lemma SetAnnotation_spec key val rn rn' :
  SetAnnotation key val rn = Ok rn' ->
  annotation_of key (YNode rn') = Some val /\
  (forall key', key' <> key ->
     annotation_of key' (YNode rn') = annotation_of key' (YNode rn)) /\
  NodeKind (YNode rn') = MappingNode /\
  NodeKind (YNode rn) = MappingNode /\
  (forall name, name <> "metadata" ->
     field_of name (YNode rn') = field_of name (YNode rn)) /\
  Tag (YNode rn') = Tag (YNode rn).
Proof.
  unfold SetAnnotation. intros H.
  apply on_YNode_spec in H.
  2:{ intros n n' Hn. now apply in_field_create_spec in Hn as (_ & ? & _). }
  apply in_field_create_spec in H as (K & K' & (md' & Hmd & Fmd) & Hother & HTag).
  apply in_field_create_spec in Hmd as (Kmd & Kmd' & (an' & Han & Fan) & Hmdother & _).
  apply FieldSetter_spec in Han as (Kan & Kan' & Fkey & Hanother).
  repeat split; try assumption.
  - unfold annotation_of. rewrite Fmd. simpl.
    rewrite (YNode_mapping _ Kmd'), Fan. simpl.
    rewrite (YNode_mapping _ Kan'), Fkey. simpl. reflexivity.
  - intros key' Hne. unfold annotation_of. rewrite Fmd. simpl.
    rewrite (YNode_mapping _ Kmd'), Fan. simpl.
    rewrite (YNode_mapping _ Kan'), (Hanother _ Hne).
    destruct (field_of "metadata" (YNode rn)) as [md|] eqn:Emd; simpl in *.
    + rewrite (YNode_mapping _ Kmd).
      destruct (field_of "annotations" md) as [an|] eqn:Ean; simpl in *.
      * now rewrite (YNode_mapping _ Kan).
      * reflexivity.
    + reflexivity.
Qed.

End yaml_facts.

(* ===================================================================== *)
(** ** byteio_reader.go: the reader *)
(* ===================================================================== *)

Module kio_facts.
Import gostd yaml kio gostd_facts yaml_facts scenarios.

Lemma wrap_int_small z : (- 2 ^ 63 <= z < 2 ^ 63)%Z -> wrap_int z = z.
Proof. intros H. unfold wrap_int. rewrite Z.mod_small; lia. Qed.

Lemma elem_of_sorted_keys (m : gmap string string) k :
  k ∈ sorted_keys m <-> is_Some (m !! k).
Proof.
  unfold sorted_keys. rewrite sort_Strings_perm.
  rewrite list_elem_of_fmap. split.
  - intros [[k' v] [-> H]]. apply elem_of_map_to_list in H. simpl. eauto.
  - intros [v H]. exists (k, v). split; [reflexivity|]. now apply elem_of_map_to_list.
Qed.

Lemma set_all_spec (m : gmap string string) keys n n' :
  set_all m keys n = Ok n' ->
  (forall key,
     key ∈ keys \/ annotation_of key (YNode n) = Some (default "" (m !! key)) ->
     annotation_of key (YNode n') = Some (default "" (m !! key))) /\
  (forall name, name <> "metadata" ->
     field_of name (YNode n') = field_of name (YNode n)) /\
  Tag (YNode n') = Tag (YNode n) /\
  (keys <> [] -> NodeKind (YNode n') = MappingNode).
Proof.
  revert n. induction keys as [|k keys IH]; intros n H; simpl in H.
  - injection H as <-. repeat split; try done.
    intros key [Hin|Hk]; [inversion Hin | exact Hk].
  - apply bind_Ok in H as (n1 & H1 & H).
    apply SetAnnotation_spec in H1 as (Hset & Hoth & K1 & K & Hf & HT).
    destruct (IH _ H) as (IHa & IHf & IHT & IHK).
    repeat split.
    + intros key [Hin|Hk].
      * destruct (decide (key = k)) as [->|Hne].
        -- apply IHa. right. exact Hset.
        -- apply IHa. left. inversion Hin; subst; [congruence | assumption].
      * apply IHa. right. destruct (decide (key = k)) as [->|Hne]; [exact Hset|].
        rewrite (Hoth _ Hne). exact Hk.
    + intros name Hne. rewrite (IHf _ Hne). now apply Hf.
    + congruence.
    + intros _. destruct keys as [|k' keys'].
      * simpl in H. injection H as <-. exact K1.
      * apply IHK. done.
Qed.

Section ByteReader.

Variable Decode : string -> result Node.
Variable IndexAnnotation : string.

Abbreviation decode := (decode Decode IndexAnnotation).
Abbreviation Read_body := (Read_body Decode IndexAnnotation).
Abbreviation read_loop := (read_loop Decode IndexAnnotation).
Abbreviation stamp_heap := (stamp_heap IndexAnnotation).
Abbreviation counted := (counted IndexAnnotation).

Lemma decode_holds r h index text :
  holds_document Decode text = true ->
  exists doc, Decode text = Ok doc /\ isEmptyDocument doc = Ok false /\
  decode r h index text =
    (match set_all (deref (stamp_heap r h index) (stamp_loc r h))
             (sorted_keys (deref (stamp_heap r h index) (stamp_loc r h)))
             (NewRNode doc) with
     | Ok n' => Ok (Some n')
     | Err e => Err e
     end,
     with_SetAnnotations r (Some (stamp_loc r h)), stamp_heap r h index).
Proof.
  unfold holds_document, decode, stamp_heap, stamp_loc.
  destruct (Decode text) as [doc|e]; [|discriminate].
  destruct (isEmptyDocument doc) as [[|]|e] eqn:He; try discriminate.
  intros _. exists doc. split; [reflexivity|]. split; [exact He|].
  unfold map_alloc.
  destruct (SetAnnotations r) as [l|]; simpl;
    destruct (OmitReaderAnnotations r); simpl;
    match goal with |- context [set_all ?m ?k ?n] => destruct (set_all m k n) end;
    reflexivity.
Qed.

Lemma decode_not_holds r h index text :
  holds_document Decode text = false ->
  exists res, decode r h index text = (res, r, h) /\
              (res = Ok None \/ exists e, res = Err e).
Proof.
  unfold holds_document, decode.
  destruct (Decode text) as [doc|e]; [|eauto].
  destruct (isEmptyDocument doc) as [[|]|e]; try discriminate; eauto.
Qed.

Lemma decode_blank r h index text :
  is_blank Decode text = true ->
  decode r h index text = (Err io_EOF, r, h) \/
  decode r h index text = (Ok None, r, h).
Proof.
  unfold is_blank, decode.
  destruct (Decode text) as [doc|e].
  - destruct (isEmptyDocument doc) as [[|]|e]; try discriminate; auto.
  - destruct e; try discriminate; auto.
Qed.

Lemma stamp_heap_index r h index :
  OmitReaderAnnotations r = false ->
  deref (stamp_heap r h index) (stamp_loc r h) !! IndexAnnotation
  = Some (Sprintf_d index).
Proof.
  intros HO. unfold stamp_heap. rewrite HO. unfold map_store, deref.
  rewrite lookup_insert_eq. simpl. apply lookup_insert_eq.
Qed.

Lemma decode_index r h index text n r1 h1 :
  OmitReaderAnnotations r = false ->
  decode r h index text = (Ok (Some n), r1, h1) ->
  GetAnnotation IndexAnnotation n = Some (Sprintf_d index).
Proof.
  intros HO H.
  destruct (holds_document Decode text) eqn:E.
  - destruct (decode_holds r h index text E) as (doc & _ & _ & Hd).
    rewrite Hd in H.
    destruct (set_all _ _ _) as [n'|e] eqn:Hs; [|discriminate].
    injection H as <- _ _.
    apply set_all_spec in Hs as (Ha & _).
    rewrite GetAnnotation_annotation_of, Ha.
    + now rewrite stamp_heap_index.
    + left. apply elem_of_sorted_keys. rewrite stamp_heap_index by assumption. eauto.
  - destruct (decode_not_holds r h index text E) as (res & Hd & [->|[e ->]]);
      rewrite Hd in H; discriminate.
Qed.

Lemma decode_reader r h index text res r1 h1 :
  decode r h index text = (res, r1, h1) ->
  r1 = r \/ r1 = with_SetAnnotations r (Some (stamp_loc r h)).
Proof.
  intros H. destruct (holds_document Decode text) eqn:E.
  - destruct (decode_holds r h index text E) as (doc & _ & _ & Hd).
    rewrite Hd in H. injection H as _ <- _. now right.
  - destruct (decode_not_holds r h index text E) as (res' & Hd & _).
    rewrite Hd in H. injection H as _ <- _. now left.
Qed.

Lemma decode_Omit r h index text res r1 h1 :
  decode r h index text = (res, r1, h1) ->
  OmitReaderAnnotations r1 = OmitReaderAnnotations r.
Proof. intros H. apply decode_reader in H as [->| ->]; reflexivity. Qed.


Lemma Read_body_cases {A} (direct item : RNode -> A) text r h out index :
  exists res r1 h1,
    decode r h index text = (res, r1, h1) /\
    ( (Read_body direct item text r h out index = Continue r1 h1 out index /\
       (res = Err io_EOF \/ res = Ok None \/
        exists node, res = Ok (Some node) /\ IsMissingOrNull (Some node) = true))
      \/ (exists e, res = Err e /\ e <> io_EOF /\
           Read_body direct item text r h out index = Return e r1 h1)
      \/ (exists node, res = Ok (Some node) /\
           IsMissingOrNull (Some node) = false /\
           is_wrapping_list node = true /\
           Read_body direct item text r h out index
           = Continue (envelope_reader r1 node) h1
               (out ++ envelope_items item node) index)
      \/ (exists node, res = Ok (Some node) /\
           IsMissingOrNull (Some node) = false /\
           is_wrapping_list node = false /\
           Read_body direct item text r h out index
           = Continue r1 h1 (out ++ [direct node]) (wrap_int (index + 1))) ).
Proof.
  unfold Read_body.
  destruct (decode r h index text) as [[res r1] h1].
  eexists _, _, _. split; [reflexivity|].
  destruct res as [[node|]|e].
  - destruct (IsMissingOrNull (Some node)) eqn:EN.
    + left. split; [reflexivity|]. right; right. eauto.
    + destruct (is_wrapping_list node) eqn:EW.
      * right; right; left. exists node. repeat split; try assumption.
        unfold envelope_reader, envelope_items.
        destruct (Field node "items"); [reflexivity|].
        now rewrite app_nil_r.
      * right; right; right. exists node. repeat split; assumption.
  - left. simpl. split; [reflexivity|]. auto.
  - destruct e.
    + left. split; [reflexivity|]. auto.
    + right; left. eexists. repeat split; done.
    + right; left. eexists. repeat split; done.
    + right; left. eexists. repeat split; done.
Qed.

Lemma envelope_reader_fields r1 node :
  OmitReaderAnnotations (envelope_reader r1 node) = OmitReaderAnnotations r1 /\
  SetAnnotations (envelope_reader r1 node) = SetAnnotations r1 /\
  Reader (envelope_reader r1 node) = Reader r1.
Proof. unfold envelope_reader. destruct (Field node "functionConfig"); done. Qed.

Lemma turn_map {A B} (f : A -> B) (direct item : RNode -> A) text r h out index :
  Read_body (fun n => f (direct n)) (fun n => f (item n)) text r h (map f out) index
  = match Read_body direct item text r h out index with
    | Continue r' h' out' index' => Continue r' h' (map f out') index'
    | Return e r' h' => Return e r' h'
    end.
Proof.
  unfold Read_body.
  destruct (decode r h index text) as [[res r1] h1].
  destruct res as [[node|]|e]; simpl.
  - destruct (String.eqb (Tag (YNode node)) NullNodeTag); [reflexivity|].
    destruct (is_wrapping_list node).
    + destruct (Field node "items"); [|reflexivity].
      now rewrite map_app, map_map.
    + now rewrite map_app.
  - reflexivity.
  - destruct e; reflexivity.
Qed.

Lemma read_loop_map {A B} (f : A -> B) (direct item : RNode -> A) values r h out index :
  read_loop (fun n => f (direct n)) (fun n => f (item n)) values r h (map f out) index
  = match read_loop direct item values r h out index with
    | (Ok out', r', h') => (Ok (map f out'), r', h')
    | (Err e, r', h') => (Err e, r', h')
    end.
Proof.
  revert r h out index. induction values as [|text rest IH]; intros; simpl.
  - reflexivity.
  - rewrite turn_map.
    destruct (Read_body direct item text r h out index); [apply IH | reflexivity].
Qed.

Lemma Read_labelled_erase r h labelled r' h' :
  Read_labelled Decode IndexAnnotation r h = (Ok labelled, r', h') ->
  Read Decode IndexAnnotation r h = (Ok (map snd labelled), r', h').
Proof.
  unfold Read_labelled, Read, Read_as.
  destruct (Reader r) as [input|e]; [|discriminate].
  intros H.
  change (@id RNode) with (fun n : RNode => snd (Direct, n)) at 1.
  change (@id RNode) with (fun n : RNode => snd (Unwrapped, n)).
  change (@nil RNode) with (map (@snd origin RNode) []).
  rewrite (read_loop_map snd (pair Direct) (pair Unwrapped)), H. reflexivity.
Qed.

Lemma direct_documents_app out1 out2 :
  direct_documents (out1 ++ out2) = direct_documents out1 ++ direct_documents out2.
Proof. unfold direct_documents. now rewrite List.filter_app, map_app. Qed.

Lemma direct_documents_items node :
  direct_documents (envelope_items (pair Unwrapped) node) = [].
Proof.
  unfold envelope_items. destruct (Field node "items") as [items|]; [|reflexivity].
  unfold direct_documents. induction (RContent (MapValue items)); simpl; auto.
Qed.

Lemma counted_turn text r h out index r' h' out' index' :
  OmitReaderAnnotations r = false ->
  (index < 2 ^ 63 - 1)%Z ->
  counted out index ->
  Read_body (pair Direct) (pair Unwrapped) text r h out index
  = Continue r' h' out' index' ->
  counted out' index' /\ OmitReaderAnnotations r' = false /\
  (index <= index' <= index + 1)%Z.
Proof.
  intros HO Hlt [Hidx Hann] H.
  destruct (Read_body_cases (pair Direct) (pair Unwrapped) text r h out index)
    as (res & r1 & h1 & Hd & Hc).
  pose proof (decode_Omit _ _ _ _ _ _ _ Hd) as HO1.
  destruct Hc as [[Hb _] | [(e & _ & _ & Hb) | [(node & _ & _ & _ & Hb)
                 | (node & -> & _ & _ & Hb)]]];
    rewrite Hb in H; try discriminate; injection H as <- <- <- <-.
  - repeat split; try assumption; try lia. congruence.
  - destruct (envelope_reader_fields r1 node) as (-> & _).
    unfold counted. rewrite direct_documents_app, direct_documents_items, app_nil_r.
    repeat split; try assumption; try lia. congruence.
  - unfold counted. rewrite direct_documents_app. simpl.
    change (direct_documents [(Direct, node)]) with [node].
    rewrite length_app, map_app. simpl.
    rewrite Nat.add_1_r. rewrite seq_S, map_app. simpl.
    rewrite wrap_int_small by lia.
    repeat split; try lia; [|congruence].
    rewrite Hann. f_equal.
    rewrite (decode_index _ _ _ _ _ _ _ HO Hd). now rewrite Hidx.
Qed.

Lemma counted_loop values r h out index r' h' out' :
  OmitReaderAnnotations r = false ->
  (index + Z.of_nat (length values) <= 2 ^ 63 - 1)%Z ->
  counted out index ->
  read_loop (pair Direct) (pair Unwrapped) values r h out index = (Ok out', r', h') ->
  exists index', counted out' index'.
Proof.
  revert r h out index. induction values as [|text rest IH];
    intros r h out index HO Hlen Hc H; simpl in H.
  - injection H as <- _ _. eauto.
  - destruct (Read_body _ _ _ _ _ _ _) as [r1 h1 out1 index1|] eqn:Hb;
      [|discriminate].
    simpl length in Hlen.
    apply counted_turn in Hb as (Hc1 & HO1 & Hi); try assumption; [|lia].
    apply (IH r1 h1 out1 index1); try assumption. lia.
Qed.



End ByteReader.


Example mixed_documents_indices :
  map (fun p => (fst p, GetAnnotation index_key (snd p))) (labelled_of mixed_documents)
  = [(Direct, Some "0"); (Unwrapped, None); (Unwrapped, None); (Direct, Some "1")].
Proof. vm_compute. reflexivity. Qed.

#[local] Arguments String.append !_ _ / : simpl nomatch.
#[local] Arguments String.prefix : simpl never.

Lemma append_same_length a x c y :
  a +:+ x = c +:+ y -> String.length a = String.length c -> a = c /\ x = y.
Proof.
  revert c. induction a as [|ch a IH]; intros [|ch' c] H L; simpl in *; try discriminate.
  - auto.
  - injection H as -> H. injection L as L. destruct (IH _ H L) as [-> ->]. auto.
Qed.

Lemma prefix_append sep b : String.prefix sep (sep +:+ b) = true.
Proof. apply prefix_correct. apply substring_front. Qed.

Lemma split_scan_no_sep sep s skip cur :
  sep <> "" ->
  (skip = 0 \/ cur = "") ->
  (forall a b, cur +:+ s = a +:+ sep +:+ b -> String.length cur <= String.length a) ->
  forall seg, seg ∈ split_scan sep skip cur s -> ~ occurs sep seg.
Proof.
  intros Hsep. 
  assert (Hcur : forall cur s,
    (forall a b, cur +:+ s = a +:+ sep +:+ b -> String.length cur <= String.length a) ->
    ~ occurs sep cur).
  { intros cur0 s0 H (a & b & E).
    specialize (H a (b +:+ s0)). rewrite E in H at 1.
    rewrite !append_assoc in H. specialize (H eq_refl).
    rewrite E, !length_append in H.
    destruct sep; [congruence|]. simpl in H. lia. }
  revert skip cur. induction s as [|c s IH]; intros skip cur Hs Hinv seg Hin; simpl in Hin.
  - apply list_elem_of_singleton in Hin as ->. eapply Hcur, Hinv.
  - destruct skip as [|k].
    + destruct (String.prefix sep (String c s)) eqn:E.
      * apply elem_of_cons in Hin as [-> | Hin]; [eapply Hcur, Hinv|].
        apply (IH _ _ (or_intror eq_refl)) in Hin; [exact Hin|].
        intros; simpl; lia.
      * apply (IH _ _ (or_introl eq_refl)) in Hin; [exact Hin|].
        intros a b Hab. rewrite append_assoc in Hab. simpl in Hab.
        pose proof (Hinv a b Hab) as Hle.
        rewrite length_append. simpl.
        destruct (decide (String.length cur = String.length a)) as [L|]; [|lia].
        apply append_same_length in Hab as [_ Hab]; [|exact L].
        rewrite Hab, prefix_append in E. discriminate.
    + destruct Hs as [| ->]; [discriminate|].
      apply (IH _ _ (or_intror eq_refl)) in Hin; [exact Hin|].
      intros; simpl; lia.
Qed.

Lemma Split_no_sep s sep seg :
  sep <> "" -> seg ∈ Split s sep -> ~ occurs sep seg.
Proof.
  intros Hsep. unfold Split. destruct sep as [|c sep]; [congruence|].
  apply split_scan_no_sep; auto. intros; simpl; lia.
Qed.

Section ByteReader.

Variable Decode : string -> result Node.
Variable IndexAnnotation : string.

Abbreviation decode := (decode Decode IndexAnnotation).
Abbreviation Read_body := (Read_body Decode IndexAnnotation).
Abbreviation read_loop := (read_loop Decode IndexAnnotation).
Abbreviation is_blank := (is_blank Decode).

Lemma Read_body_blank {A} (direct item : RNode -> A) text r h out index :
  is_blank text = true ->
  Read_body direct item text r h out index = Continue r h out index.
Proof.
  intros H. unfold Read_body.
  destruct (decode_blank Decode IndexAnnotation r h index text H) as [-> | ->];
    reflexivity.
Qed.

Lemma read_loop_drop_blank {A} (direct item : RNode -> A) values r h out index :
  read_loop direct item values r h out index
  = read_loop direct item (List.filter (fun t => negb (is_blank t)) values)
      r h out index.
Proof.
  revert r h out index. induction values as [|text rest IH]; intros; [reflexivity|].
  simpl List.filter. destruct (is_blank text) eqn:E; simpl negb; cbv iota.
  - simpl. rewrite Read_body_blank by assumption. apply IH.
  - simpl. destruct (Read_body direct item text r h out index); [apply IH | reflexivity].
Qed.

(** C4.  [Read] takes the whole input (an error of the copy is returned
    as it is), and cuts it at the occurrences of the separator line: the
    segments joined by the separator give the input back and none of them
    holds a separator.  A segment in which the decoder finds the end of
    the input, or an empty document, is passed over: the result is that of
    the loop on the other segments alone, so such segments add no
    document and raise no error wherever they stand. *)
Theorem Read_splits_and_skips (r : ByteReader) (h : heap) :
  match Reader r with
  | Err e => Read Decode IndexAnnotation r h = (Err e, r, h)
  | Ok input =>
      Join (Split input separator) separator = input /\
      (forall seg, seg ∈ Split input separator -> ~ occurs separator seg) /\
      Read Decode IndexAnnotation r h
      = read_loop id id
          (List.filter (fun t => negb (is_blank t)) (Split input separator))
          r h [] 0%Z
  end.
Proof.
  unfold Read, Read_as. destruct (Reader r) as [input|e]; [|reflexivity].
  assert (separator <> "") by (unfold separator; discriminate).
  split; [now apply Join_Split|]. split.
  - intros seg. now apply Split_no_sep.
  - apply read_loop_drop_blank.
Qed.


Lemma same_fields_Field n d name :
  same_fields n d -> name <> "metadata" ->
  MapValue <$> Field n name = MapValue <$> Field d name.
Proof. intros [_ H] Hne. rewrite !Field_field_of. now rewrite H. Qed.

Lemma same_fields_text n d name :
  same_fields n d -> name <> "metadata" -> field_text n name = field_text d name.
Proof.
  intros H Hne. pose proof (same_fields_Field n d name H Hne) as E.
  unfold field_text. destruct (Field n name), (Field d name); simpl in E;
    try discriminate; [|reflexivity].
  injection E as E. now rewrite E.
Qed.

Lemma same_fields_GetMeta n d : same_fields n d -> GetMeta n = GetMeta d.
Proof.
  intros H. unfold GetMeta.
  rewrite (same_fields_text n d "apiVersion"), (same_fields_text n d "kind"); done.
Qed.

Lemma same_fields_wrapping n d :
  same_fields n d -> is_wrapping_list n = is_wrapping_list d.
Proof.
  intros H. unfold is_wrapping_list. rewrite (same_fields_GetMeta n d H).
  f_equal. pose proof (same_fields_Field n d "items" H ltac:(done)) as E.
  destruct (Field n "items"), (Field d "items"); simpl in E;
    try discriminate; reflexivity.
Qed.

Lemma same_fields_items {A} (item : RNode -> A) n d :
  same_fields n d -> envelope_items item n = envelope_items item d.
Proof.
  intros H. unfold envelope_items.
  pose proof (same_fields_Field n d "items" H ltac:(done)) as E.
  destruct (Field n "items"), (Field d "items"); simpl in E;
    try discriminate; [|reflexivity].
  injection E as E. now rewrite E.
Qed.

Lemma same_fields_null n d :
  same_fields n d -> IsMissingOrNull (Some n) = IsMissingOrNull (Some d).
Proof. intros [H _]. simpl. now rewrite H. Qed.

Lemma decode_same_fields r h index text doc node r1 h1 :
  Decode text = Ok doc ->
  decode r h index text = (Ok (Some node), r1, h1) ->
  same_fields node (NewRNode doc) /\ FunctionConfig r1 = FunctionConfig r.
Proof.
  intros HD H.
  destruct (holds_document Decode text) eqn:E.
  - destruct (decode_holds Decode IndexAnnotation r h index text E)
      as (doc' & HD' & _ & Hd).
    rewrite HD in HD'. injection HD' as <-. rewrite Hd in H.
    destruct (set_all _ _ _) as [n'|e] eqn:Hs; [|discriminate].
    injection H as <- <- _.
    apply set_all_spec in Hs as (_ & Hf & HT & _).
    split; [split; assumption | reflexivity].
  - destruct (decode_not_holds Decode IndexAnnotation r h index text E)
      as (res & Hd & [-> | [e ->]]); rewrite Hd in H; discriminate.
Qed.


End ByteReader.

Example padded_documents_read :
  Split padded_documents separator = [""; "a: 1"; "b: 2" +:+ nl; ""] /\
  List.filter (fun t => negb (kio.is_blank decoder t)) (Split padded_documents separator)
  = ["a: 1"; "b: 2" +:+ nl] /\
  (Read decoder index_key (reader_of padded_documents) ∅).1.1
  = (Read decoder index_key (reader_of two_documents) ∅).1.1.
Proof. vm_compute. auto. Qed.


Lemma none_or_some {X} (f : X -> bool) (l : list X) :
  Forall (fun t => f t = false) l \/ Exists (fun t => f t = true) l.
Proof.
  induction l as [|x l [IH|IH]].
  - left. constructor.
  - destruct (f x) eqn:E; [right; now constructor | left; now constructor].
  - right. now constructor 2.
Qed.

Lemma some_not_none {X} (f : X -> bool) (l : list X) :
  Exists (fun t => f t = true) l -> Forall (fun t => f t = false) l -> False.
Proof.
  induction 1 as [x l Hx | x l _ IH]; intros HF; inversion HF; subst;
    [congruence | auto].
Qed.

Section ByteReader.

Variable Decode : string -> result Node.
Variable IndexAnnotation : string.

Abbreviation decode := (decode Decode IndexAnnotation).
Abbreviation Read_body := (Read_body Decode IndexAnnotation).
Abbreviation read_loop := (read_loop Decode IndexAnnotation).
Abbreviation stamp_heap := (stamp_heap IndexAnnotation).
Abbreviation holds_document := (holds_document Decode).
Abbreviation wrote_index := (wrote_index IndexAnnotation).
Abbreviation after := (after IndexAnnotation).

Lemma fresh_not_in (h : heap) : h !! fresh (dom h) = None.
Proof. apply not_elem_of_dom. apply is_fresh. Qed.

Lemma stamp_wrote r h index :
  OmitReaderAnnotations r = false ->
  wrote_index r h (stamp_loc r h) index
    (with_SetAnnotations r (Some (stamp_loc r h))) (stamp_heap r h index).
Proof.
  intros HO. unfold wrote_index, kio.stamp_heap, stamp_loc. rewrite HO.
  destruct (SetAnnotations r) as [l|] eqn:E; simpl;
    unfold map_store, deref; rewrite !lookup_insert_eq; simpl.
  - repeat split; try reflexivity.
    intros l' Hne. now rewrite lookup_insert_ne.
  - rewrite fresh_not_in. simpl. repeat split; try reflexivity.
    intros l' Hne. now rewrite !lookup_insert_ne.
Qed.

Lemma wrote_index_again r0 h0 l i r h index :
  OmitReaderAnnotations r = false ->
  wrote_index r0 h0 l i r h ->
  wrote_index r0 h0 l index
    (with_SetAnnotations r (Some (stamp_loc r h))) (stamp_heap r h index).
Proof.
  intros HO (HS & Hl & Hm & Hin & Hoth).
  unfold wrote_index, kio.stamp_heap, stamp_loc. rewrite HO, HS. simpl.
  unfold map_store. repeat split.
  - exact Hl.
  - unfold deref at 1. rewrite lookup_insert_eq. simpl. rewrite Hm.
    apply insert_insert_eq.
  - unfold deref at 2. now rewrite !lookup_insert_eq.
  - intros l' Hne. rewrite lookup_insert_ne by done. now apply Hoth.
Qed.

Lemma decode_after r0 h0 r h index text res r1 h1 :
  after r0 h0 r h ->
  decode r h index text = (res, r1, h1) ->
  after r0 h0 r1 h1 /\
  (holds_document text = true -> wrote_index r0 h0 (stamp_loc r h) index r1 h1) /\
  (holds_document text = false -> r1 = r /\ h1 = h).
Proof.
  intros [HO Hst] H.
  destruct (holds_document text) eqn:E.
  - destruct (decode_holds Decode IndexAnnotation r h index text E)
      as (doc & _ & _ & Hd).
    rewrite Hd in H. injection H as _ <- <-.
    assert (W : wrote_index r0 h0 (stamp_loc r h) index
                  (with_SetAnnotations r (Some (stamp_loc r h)))
                  (stamp_heap r h index)).
    { destruct Hst as [[HS ->] | (l & i & W)].
      - pose proof (stamp_wrote r h0 index HO) as W.
        unfold wrote_index in *. unfold stamp_loc in *. rewrite HS in *. exact W.
      - pose proof (wrote_index_again _ _ _ _ _ _ index HO W) as W'.
        destruct W as (HS & _). unfold stamp_loc at 1. now rewrite HS. }
    split; [|split; [intros _; exact W | discriminate]].
    split; [exact HO | right; eauto].
  - destruct (decode_not_holds Decode IndexAnnotation r h index text E)
      as (res' & Hd & _).
    rewrite Hd in H. injection H as _ <- <-.
    split; [split; assumption|]. split; [discriminate | auto].
Qed.

Lemma envelope_after r0 h0 r1 h1 node :
  after r0 h0 r1 h1 -> after r0 h0 (envelope_reader r1 node) h1.
Proof.
  destruct (envelope_reader_fields r1 node) as (EO & ES & _).
  intros [HO Hst]. split; [congruence|].
  destruct Hst as [[HS ->] | (l & i & (HS & W))].
  - left. split; congruence.
  - right. exists l, i. split; [congruence | exact W].
Qed.

Lemma wrote_envelope r0 h0 l i r1 h1 node :
  wrote_index r0 h0 l i r1 h1 -> wrote_index r0 h0 l i (envelope_reader r1 node) h1.
Proof.
  destruct (envelope_reader_fields r1 node) as (_ & ES & _).
  intros (HS & W). split; [congruence | exact W].
Qed.

Lemma Read_body_after {A} (direct item : RNode -> A) r0 h0 text r h out index :
  after r0 h0 r h ->
  match Read_body direct item text r h out index with
  | Continue r' h' _ _ =>
      after r0 h0 r' h' /\
      (holds_document text = true -> exists l, wrote_index r0 h0 l index r' h') /\
      (holds_document text = false -> untouched r h r' h')
  | Return _ r' h' =>
      after r0 h0 r' h' /\
      (holds_document text = false -> untouched r h r' h')
  end.
Proof.
  intros Ha.
  destruct (Read_body_cases Decode IndexAnnotation direct item text r h out index)
    as (res & r1 & h1 & Hd & Hc).
  destruct (decode_after _ _ _ _ _ _ _ _ _ Ha Hd) as (Ha1 & Hw & Hn).
  destruct Hc as [[Hb _] | [(e & _ & _ & Hb) | [(node & _ & _ & _ & Hb)
                 | (node & _ & _ & _ & Hb)]]]; rewrite Hb.
  - split; [exact Ha1|]. split; [eauto|]. intros E. destruct (Hn E) as [-> ->]. done.
  - split; [exact Ha1|]. intros E. destruct (Hn E) as [-> ->]. done.
  - split; [now apply envelope_after|]. split.
    + intros E. eexists. apply wrote_envelope. now apply Hw.
    + intros E. destruct (Hn E) as [-> ->].
      destruct (envelope_reader_fields r node) as (_ & ES & _). done.
  - split; [exact Ha1|]. split; [eauto|]. intros E. destruct (Hn E) as [-> ->]. done.
Qed.

Lemma read_loop_after {A} (direct item : RNode -> A) r0 h0 values r h out index res r' h' :
  after r0 h0 r h ->
  read_loop direct item values r h out index = (res, r', h') ->
  after r0 h0 r' h' /\
  (Forall (fun t => holds_document t = false) values -> untouched r h r' h') /\
  (forall out', res = Ok out' ->
     Exists (fun t => holds_document t = true) values ->
     exists l i, wrote_index r0 h0 l i r' h').
Proof.
  revert r h out index. induction values as [|text rest IH];
    intros r h out index Ha H; simpl in H.
  - injection H as <- <- <-. split; [exact Ha|]. split; [done|].
    intros out' _ Hex. inversion Hex.
  - pose proof (Read_body_after direct item r0 h0 text r h out index Ha) as Hb.
    destruct (Read_body direct item text r h out index)
      as [r1 h1 out1 index1 | e r1 h1].
    + destruct Hb as (Ha1 & Hw & Hn).
      destruct (IH _ _ _ _ Ha1 H) as (Ha' & Hun & Hex).
      split; [exact Ha'|]. split.
      * intros HF. inversion HF as [|? ? Ht Hrest]; subst.
        destruct (Hn Ht) as [E1 ->]. destruct (Hun Hrest) as [E2 ->].
        split; congruence.
      * intros out' -> HE.
        destruct (none_or_some holds_document rest) as [HF|HF].
        -- inversion HE as [? ? Ht | ? ? Hrest]; subst.
           ++ destruct (Hw Ht) as (l & W). destruct (Hun HF) as [E ->].
              exists l, index. destruct W as (HS & W). split; [congruence | exact W].
           ++ destruct (some_not_none _ _ Hrest HF).
        -- now apply (Hex out' eq_refl).
    + injection H as <- <- <-. destruct Hb as (Ha1 & Hn).
      split; [exact Ha1|]. split.
      * intros HF. inversion HF; subst. auto.
      * intros out' Hout. discriminate.
Qed.

End ByteReader.

Section Package.

Variable Decode : string -> result Node.
Variable IndexAnnotation PathAnnotation PackageAnnotation : string.
Variable filepath_Join : string -> string -> string.
Variable filepath_Dir : string -> string.
Variable filepath_Rel : string -> string -> result string.
Variable filepath_Match : string -> string -> result bool.
Variable os_Stat : string -> option error.
Variable os_IsNotExist : error -> bool.
Variable os_Open : string -> result (result string).

Abbreviation initReaderAnnotations :=
  (initReaderAnnotations PathAnnotation PackageAnnotation filepath_Dir).
Abbreviation readFile := (readFile Decode IndexAnnotation os_Open).
Abbreviation Read_walkFn :=
  (Read_walkFn Decode IndexAnnotation PathAnnotation PackageAnnotation
     filepath_Join filepath_Dir filepath_Rel filepath_Match os_Stat
     os_IsNotExist os_Open).
Abbreviation shouldSkipFile := (shouldSkipFile filepath_Match).
Abbreviation wrote_path :=
  (wrote_path PathAnnotation PackageAnnotation filepath_Dir).
Abbreviation relative_to := (relative_to filepath_Dir).

Lemma initReaderAnnotations_wrote r h path info :
  lpr_OmitReaderAnnotations r = false ->
  PathAnnotation <> PackageAnnotation ->
  wrote_path r h (init_loc r h) path
    (initReaderAnnotations r h path info).1 (initReaderAnnotations r h path info).2.
Proof.
  intros HO Hne. unfold wrote_path, kio.initReaderAnnotations, init_loc, map_alloc.
  rewrite HO.
  destruct (lpr_SetAnnotations r) as [l|] eqn:E; simpl;
    unfold map_store, deref; rewrite ?lookup_insert_eq; simpl;
    rewrite ?lookup_insert_eq; simpl.
  - repeat split;
      try (intros; rewrite ?lookup_insert_ne by done;
           first [reflexivity | apply lookup_insert_eq]).
  - rewrite fresh_not_in. repeat split;
      try (intros; rewrite ?lookup_insert_ne by done;
           first [reflexivity | apply lookup_insert_eq]).
Qed.

Lemma Read_walkFn_file path info ws h path' :
  IsDir info = false ->
  shouldSkipFile (reader ws) path info = Ok true ->
  filepath_Rel (relative_to ws path) path = Ok path' ->
  Read_walkFn path (Some info) None (ws, h)
  = let r1 := (initReaderAnnotations (reader ws) h path' info).1 in
    let h1 := (initReaderAnnotations (reader ws) h path' info).2 in
    match os_Open (filepath_Join (relative_to ws path) path') with
    | Err e => (Some e, (mkWalkState (operand ws) (relative_to ws path) r1, h1))
    | Ok f =>
        match Read Decode IndexAnnotation
                (mkByteReader f (lpr_OmitReaderAnnotations r1)
                   (lpr_SetAnnotations r1) None "" "") h1 with
        | (Err e, _, h2) =>
            (Some e, (mkWalkState (operand ws) (relative_to ws path) r1, h2))
        | (Ok nodes, _, h2) =>
            (None, (mkWalkState (operand ws ++ nodes) (relative_to ws path) r1, h2))
        end
    end.
Proof.
  intros Hd Hs Hr. unfold kio.Read_walkFn, relative_to in *. rewrite Hd.
  rewrite andb_false_r.
  destruct (String.eqb path (lpr_PackagePath (reader ws))); simpl;
    simpl in Hr; rewrite Hs, Hr;
    destruct (initReaderAnnotations (reader ws) h path' info) as [r1 h1]; simpl;
    unfold kio.readFile;
    (destruct (os_Open _) as [f|e]; [|reflexivity]);
    destruct (Read _ _ _ _) as [[[nodes|e] rr] h2]; reflexivity.
Qed.



End Package.


Example resource_list_read :
  let '(res, r', _) := Read decoder index_key (reader_of text_list) ∅ in
  res = Ok [NewRNode (mapping [str "a"; int "1"]);
            NewRNode (mapping [str "b"; int "2"])] /\
  WrappingKind r' = "ResourceList" /\
  WrappingApiVersion r' = ResourceListApiVersion /\
  map (GetAnnotation index_key) (match res with Ok l => l | Err _ => [] end)
  = [None; None].
Proof. vm_compute. auto. Qed.



Section ReadWriter.

Variable Decode : string -> result Node.
Variable IndexAnnotation PathAnnotation PackageAnnotation : string.
Variable GetFileAnnotations : RNode -> result (string * string).
Variable filepath_Join : string -> string -> string.
Variable filepath_Clean : string -> string.
Variable filepath_Dir : string -> string.
Variable filepath_Rel : string -> string -> result string.
Variable filepath_Match : string -> string -> result bool.
Variable os_Stat : string -> option error.
Variable os_IsNotExist : error -> bool.
Variable os_Open : string -> result (result string).
Variable FS : Type.
Variable os_Remove : string -> FS -> option error * FS.
Variable LocalPackageWriter_Write :
  LocalPackageWriter -> list RNode -> FS -> option error * FS.
Variable range_order : gset string -> list string.

Abbreviation getFiles := (getFiles GetFileAnnotations).
Abbreviation getFiles_loop := (getFiles_loop GetFileAnnotations).
Abbreviation remove_each := (remove_each filepath_Join FS os_Remove).
Abbreviation all_removed := (all_removed filepath_Join FS os_Remove).
Abbreviation RW_Read :=
  (LocalPackageReadWriter_Read Decode IndexAnnotation PathAnnotation
     PackageAnnotation GetFileAnnotations filepath_Join filepath_Clean
     filepath_Dir filepath_Rel filepath_Match os_Stat os_IsNotExist os_Open).
Abbreviation RW_Write :=
  (LocalPackageReadWriter_Write GetFileAnnotations filepath_Join FS os_Remove
     LocalPackageWriter_Write range_order).
Abbreviation SetAnnotations_keys := (SetAnnotations_keys range_order).
Abbreviation path_of_some := (path_of_some GetFileAnnotations).

Lemma getFiles_loop_spec nodes val s :
  getFiles_loop nodes val = Ok s ->
  forall p, p ∈ s <-> p ∈ val \/ path_of_some nodes p.
Proof.
  revert val. induction nodes as [|n rest IH]; intros val H p; simpl in H.
  - injection H as <-. split; [auto|]. intros [?|(n & i & Hin & _)]; [done|].
    inversion Hin.
  - destruct (GetFileAnnotations n) as [[path index]|e] eqn:E; [|discriminate].
    rewrite (IH _ H p). rewrite elem_of_union, elem_of_singleton. split.
    + intros [[-> | Hv] | (m & i & Hin & Hm)].
      * right. exists n, index. split; [left | exact E].
      * now left.
      * right. exists m, i. split; [now right | exact Hm].
    + intros [Hv | (m & i & Hin & Hm)]; [auto|].
      apply elem_of_cons in Hin as [-> | Hin].
      * rewrite E in Hm. injection Hm as -> _. auto.
      * right. exists m, i. auto.
Qed.

Lemma getFiles_spec r nodes s :
  getFiles r nodes = Ok s -> forall p, p ∈ s <-> path_of_some nodes p.
Proof.
  intros H p. unfold kio.getFiles in H. rewrite (getFiles_loop_spec _ _ _ H p).
  split; [intros [?|?]; [set_solver | done] | auto].
Qed.

Lemma remove_each_spec packagePath deleteFiles fs :
  match remove_each packagePath deleteFiles fs with
  | (None, fs') => all_removed packagePath deleteFiles fs fs'
  | (Some e, fs') =>
      exists gone f rest fsk,
        deleteFiles = gone ++ f :: rest /\
        all_removed packagePath gone fs fsk /\
        os_Remove (filepath_Join packagePath f) fsk = (Some e, fs')
  end.
Proof.
  revert fs. induction deleteFiles as [|f rest IH]; intros fs; simpl.
  - reflexivity.
  - destruct (os_Remove (filepath_Join packagePath f) fs) as [[e|] fs1] eqn:E.
    + exists [], f, rest, fs. simpl. auto.
    + specialize (IH fs1).
      destruct (remove_each packagePath rest fs1) as [[e|] fs'].
      * destruct IH as (gone & f' & rest' & fsk & -> & Hg & Hr).
        exists (f :: gone), f', rest', fsk. simpl. eauto.
      * simpl. eauto.
Qed.

Lemma Write_keeps_receiver r nodes h fs :
  (RW_Write r nodes h fs).1.2 = r.
Proof.
  unfold LocalPackageReadWriter_Write.
  destruct (getFiles r nodes); [|reflexivity].
  destruct (LocalPackageWriter_Write _ nodes fs) as [[e|] fs1]; [reflexivity|].
  destruct (remove_each _ _ fs1); reflexivity.
Qed.

(** C2, as amended.  After a successful [Read] with [NoDeleteFiles] false,
    [files] is the set of the path annotations of the documents just read;
    with [NoDeleteFiles] true [Read] leaves [files] as it was.  [Write]
    does not assign [files]: whatever it is given and however it ends, the
    read-writer is left as it was. *)
Theorem files_recomputed_by_Read_only r found h nodes r' h' :
  RW_Read r found h = (Ok nodes, r', h') ->
  (if rw_NoDeleteFiles r then r' = r
   else r' = rw_with_files r (files r') /\
        getFiles r nodes = Ok (files r') /\
        forall p, p ∈ files r' <-> path_of_some nodes p) /\
  (forall written h2 fs, (RW_Write r' written h2 fs).1.2 = r').
Proof.
  intros H. split; [|intros; apply Write_keeps_receiver].
  unfold LocalPackageReadWriter_Read in H.
  destruct (LocalPackageReader_Read _ _ _ _ _ _ _ _ _ _ _ _ _ _ _)
    as [[nodes0 [e|]] h0]; [discriminate|].
  destruct (rw_NoDeleteFiles r); simpl in H.
  - now injection H as _ <- _.
  - destruct (getFiles r nodes0) as [fs|e] eqn:E; [|discriminate].
    injection H as <- <- _. simpl. split; [reflexivity|]. split; [exact E|].
    now apply getFiles_spec with (r := r).
Qed.


End ReadWriter.

Lemma files_recomputed_by_Read_only_witness :
  pkg_Read pkg_read_writer ∅ = (Ok pkg_nodes, after_read, heap_after_read) /\
  rw_NoDeleteFiles pkg_read_writer = false /\
  files after_read = {[ "a.yaml"; "b.yaml" ]} /\
  getFiles file_annotations pkg_read_writer pkg_nodes = Ok (files after_read) /\
  (pkg_Write after_read kept_nodes heap_after_read pkg_files).1.2 = after_read.
Proof.
  assert (H : pkg_Read pkg_read_writer ∅ = (Ok pkg_nodes, after_read, heap_after_read))
    by (vm_compute; reflexivity).
  pose proof (files_recomputed_by_Read_only decoder index_key path_key package_key
                file_annotations flat_Join flat_Clean flat_Dir flat_Rel flat_Match
                flat_Stat flat_IsNotExist flat_Open (gset string) set_Remove
                set_Write elements pkg_read_writer pkg ∅ pkg_nodes
                after_read heap_after_read H) as [Hr Hw].
  change (rw_NoDeleteFiles pkg_read_writer) with false in Hr.
  destruct Hr as (_ & Hg & _).
  split; [exact H|]. split; [reflexivity|]. split; [vm_compute; reflexivity|].
  split; [exact Hg|]. apply Hw.
Defined.

(** C2 as stated fails for [Write]: the package is read, the documents of
    [a.yaml] alone are written back, the write succeeds and removes
    [b.yaml], and [files] still holds [b.yaml], which is the path of no
    document written. *)
Lemma Write_leaves_files_stale :
  ~ (forall err r' fs',
       pkg_Write after_read kept_nodes heap_after_read pkg_files = (err, r', fs') ->
       err = None ->
       forall p, p ∈ files r' <->
                 exists n index, n ∈ kept_nodes /\ file_annotations n = Ok (p, index)).
Proof.
  intros H.
  specialize (H None after_read {[ "pkg/a.yaml"; "pkg/notes.txt" ]}).
  assert (Hw : pkg_Write after_read kept_nodes heap_after_read pkg_files
               = (None, after_read, {[ "pkg/a.yaml"; "pkg/notes.txt" ]}))
    by (vm_compute; reflexivity).
  specialize (H Hw eq_refl "b.yaml").
  assert (Hin : "b.yaml" ∈ files after_read)
    by (replace (files after_read) with ({[ "a.yaml"; "b.yaml" ]} : gset string)
          by (vm_compute; reflexivity); set_solver).
  apply H in Hin as (n & index & Hn & Ha).
  unfold file_annotations in Ha. injection Ha as Ha _.
  apply (list_elem_of_fmap_2 (fun n => default "" (GetAnnotation path_key n))) in Hn.
  rewrite Ha in Hn.
  assert (Hp : (fun n => default "" (GetAnnotation path_key n)) <$> kept_nodes
               = ["a.yaml"; "a.yaml"]) by (vm_compute; reflexivity).
  rewrite Hp in Hn.
  apply elem_of_cons in Hn as [Hn | Hn]; [discriminate|].
  apply elem_of_cons in Hn as [Hn | Hn]; [discriminate|].
  inversion Hn.
Qed.


Lemma NoDup_sorted_keys (m : gmap string string) : NoDup (sorted_keys m).
Proof.
  unfold sorted_keys. rewrite sort_Strings_perm. apply NoDup_fst_map_to_list.
Qed.

(** X12.  The keys [decode] runs over, [sort.Strings] of the keys of the
    map, are the keys of the map, each once, in ascending order: the
    annotations are set in an order that does not depend on the order in
    which [range] yields the keys. *)
Theorem sorted_keys_order (m : gmap string string) :
  Sorted le_string (sorted_keys m) /\
  NoDup (sorted_keys m) /\
  forall k, k ∈ sorted_keys m <-> is_Some (m !! k).
Proof.
  split; [apply sort_Strings_sorted|]. split; [apply NoDup_sorted_keys|].
  apply elem_of_sorted_keys.
Qed.



Section ByteReader.

Variable Decode : string -> result Node.
Variable IndexAnnotation : string.

Abbreviation decode := (decode Decode IndexAnnotation).
Abbreviation Read_body := (Read_body Decode IndexAnnotation).
Abbreviation read_loop := (read_loop Decode IndexAnnotation).
Abbreviation stamp_heap := (stamp_heap IndexAnnotation).
Abbreviation holds_document := (holds_document Decode).
Abbreviation wrote_index := (wrote_index IndexAnnotation).
Abbreviation after := (after IndexAnnotation).
Abbreviation counted := (counted IndexAnnotation).
Abbreviation maps_kept := maps_kept.

Lemma decode_annotations r h index text node r1 h1 :
  decode r h index text = (Ok (Some node), r1, h1) ->
  exists doc l,
    Decode text = Ok doc /\ SetAnnotations r1 = Some l /\ l = stamp_loc r h /\
    h1 = stamp_heap r h index /\
    forall k v, deref h1 l !! k = Some v -> GetAnnotation k node = Some v.
Proof.
  intros H. destruct (holds_document text) eqn:E.
  - destruct (decode_holds Decode IndexAnnotation r h index text E)
      as (doc & HD & _ & Hd).
    rewrite Hd in H.
    destruct (set_all _ _ _) as [n'|e] eqn:Hs; [|discriminate].
    injection H as <- <- <-.
    exists doc, (stamp_loc r h). repeat split; try assumption.
    intros k v Hk. apply set_all_spec in Hs as (Ha & _).
    rewrite GetAnnotation_annotation_of, Ha.
    + now rewrite Hk.
    + left. apply elem_of_sorted_keys. eauto.
  - destruct (decode_not_holds Decode IndexAnnotation r h index text E)
      as (res & Hd & [-> | [e ->]]); rewrite Hd in H; discriminate.
Qed.


(** A property of every document appended as read is kept by the loop. *)
Lemma direct_documents_Forall (P : RNode -> Prop) r0 h0 values r h out index out' r' h' :
  (forall r h index text node r1 h1,
     after r0 h0 r h ->
     decode r h index text = (Ok (Some node), r1, h1) -> P node) ->
  after r0 h0 r h ->
  Forall P (direct_documents out) ->
  read_loop (pair Direct) (pair Unwrapped) values r h out index = (Ok out', r', h') ->
  Forall P (direct_documents out').
Proof.
  intros HP. revert r h out index. induction values as [|text rest IH];
    intros r h out index Ha Hout H; simpl in H.
  - now injection H as <- _ _.
  - pose proof (Read_body_after Decode IndexAnnotation (pair Direct) (pair Unwrapped)
                  r0 h0 text r h out index Ha) as Hb.
    destruct (Read_body_cases Decode IndexAnnotation (pair Direct) (pair Unwrapped)
                text r h out index) as (res & r1 & h1 & Hd & Hc).
    destruct Hc as [[E _] | [(e & _ & _ & E) | [(node & _ & _ & _ & E)
                   | (node & -> & _ & _ & E)]]]; rewrite E in H, Hb;
      try discriminate.
    + destruct Hb as (Ha1 & _). eapply IH; [exact Ha1 | exact Hout | exact H].
    + destruct Hb as (Ha1 & _). eapply IH; [exact Ha1| |exact H].
      now rewrite direct_documents_app, direct_documents_items, app_nil_r.
    + destruct Hb as (Ha1 & _). eapply IH; [exact Ha1| |exact H].
      rewrite direct_documents_app. apply Forall_app. split; [exact Hout|].
      change (direct_documents [(Direct, node)]) with [node].
      constructor; [|constructor]. eapply HP; [exact Ha | exact Hd].
Qed.

Lemma direct_documents_carry r h l labelled r' h' :
  OmitReaderAnnotations r = false ->
  SetAnnotations r = Some l ->
  Read_labelled Decode IndexAnnotation r h = (Ok labelled, r', h') ->
  forall node, node ∈ direct_documents labelled ->
    forall k v, k <> IndexAnnotation -> deref h l !! k = Some v ->
      GetAnnotation k node = Some v.
Proof.
  intros HO HS H.
  assert (Ha : after r h r h) by (split; [exact HO | left; done]).
  unfold Read_labelled, Read_as in H.
  destruct (Reader r) as [input|e]; [|discriminate].
  assert (HF : Forall
    (fun node => forall k v, k <> IndexAnnotation -> deref h l !! k = Some v ->
                             GetAnnotation k node = Some v)
    (direct_documents labelled)).
  { apply (direct_documents_Forall _ r h (Split input separator) r h [] 0%Z
             labelled r' h'); [|exact Ha|constructor|exact H].
    intros rc hc index text nd r1 h1 Hac Hd k v Hk Hv.
    destruct (decode_annotations _ _ _ _ _ _ _ Hd)
      as (doc & l1 & HD & Hl1 & -> & -> & Hann).
    apply Hann.
    assert (Hh : holds_document text = true).
    { destruct (holds_document text) eqn:E; [reflexivity|].
      destruct (decode_not_holds Decode IndexAnnotation rc hc index text E)
        as (res & Hd' & [-> | [e' ->]]); rewrite Hd' in Hd; discriminate. }
    destruct (decode_after Decode IndexAnnotation _ _ _ _ _ _ _ _ _ Hac Hd)
      as (_ & Hw & _).
    destruct (Hw Hh) as (_ & Hl & Hm & _).
    rewrite HS in Hl. rewrite Hl in *. rewrite Hm.
    now rewrite lookup_insert_ne. }
  intros node Hn. rewrite Forall_forall in HF. now apply HF.
Qed.




Lemma decode_maps_kept r0 h0 r h index text res r1 h1 :
  maps_kept r0 h0 r h ->
  decode r h index text = (res, r1, h1) ->
  maps_kept r0 h0 r1 h1.
Proof.
  intros (HO & Hm & Hs) H.
  destruct (holds_document text) eqn:E.
  - destruct (decode_holds Decode IndexAnnotation r h index text E)
      as (doc & _ & _ & Hd).
    rewrite Hd in H. injection H as _ <- <-.
    unfold kio.stamp_heap, stamp_loc. rewrite HO.
    destruct (SetAnnotations r) as [l|] eqn:ES.
    + split; [exact HO|]. split; [exact Hm|]. intros l0 Hl0.
      destruct (Hs l0 Hl0) as [E1 ->]. simpl. split; congruence.
    + split; [exact HO|]. split.
      * intros l. rewrite <- Hm. unfold deref.
        destruct (decide (l = fresh (dom h))) as [-> | Hne].
        -- now rewrite lookup_insert_eq, fresh_not_in.
        -- now rewrite lookup_insert_ne.
      * intros l0 Hl0. destruct (Hs l0 Hl0) as [E1 _]. congruence.
  - destruct (decode_not_holds Decode IndexAnnotation r h index text E)
      as (res' & Hd & _).
    rewrite Hd in H. injection H as _ <- <-.
    split; [exact HO|]. split; [exact Hm | exact Hs].
Qed.

Lemma envelope_maps_kept r0 h0 r1 h1 node :
  maps_kept r0 h0 r1 h1 -> maps_kept r0 h0 (envelope_reader r1 node) h1.
Proof.
  destruct (envelope_reader_fields r1 node) as (EO & ES & _).
  intros (HO & Hm & Hs). split; [congruence|]. split; [exact Hm|].
  intros l0 Hl0. destruct (Hs l0 Hl0). split; congruence.
Qed.

Lemma read_loop_maps_kept {A} (direct item : RNode -> A)
    r0 h0 values r h out index res r' h' :
  maps_kept r0 h0 r h ->
  read_loop direct item values r h out index = (res, r', h') ->
  maps_kept r0 h0 r' h'.
Proof.
  revert r h out index. induction values as [|text rest IH];
    intros r h out index Hk H; simpl in H.
  - now injection H as _ <- <-.
  - destruct (Read_body_cases Decode IndexAnnotation direct item text r h out index)
      as (res1 & r1 & h1 & Hd & Hc).
    pose proof (decode_maps_kept _ _ _ _ _ _ _ _ _ Hk Hd) as Hk1.
    destruct Hc as [[E _] | [(e & _ & _ & E) | [(node & _ & _ & _ & E)
                   | (node & _ & _ & _ & E)]]]; rewrite E in H.
    + eapply IH; [exact Hk1 | exact H].
    + now injection H as _ <- <-.
    + eapply IH; [apply envelope_maps_kept, Hk1 | exact H].
    + eapply IH; [exact Hk1 | exact H].
Qed.

Lemma sorted_keys_empty : sorted_keys ∅ = [].
Proof. unfold sorted_keys. now rewrite map_to_list_empty. Qed.

(** X14.  With [OmitReaderAnnotations] true, [Read] changes the contents
    of no map: a reader that was handed a map keeps it, with the store as
    it was (a reader without one at most gets a new, empty map); and when
    the map is empty or absent [decode] returns the document as
    decoded. *)
Theorem Read_omit_keeps_maps r h res r' h' :
  OmitReaderAnnotations r = true ->
  Read Decode IndexAnnotation r h = (res, r', h') ->
  (forall l, deref h' l = deref h l) /\
  (forall l, SetAnnotations r = Some l -> SetAnnotations r' = Some l /\ h' = h) /\
  (forall index text doc,
     Decode text = Ok doc -> isEmptyDocument doc = Ok false ->
     (forall l, SetAnnotations r = Some l -> deref h l = ∅) ->
     (decode r h index text).1.1 = Ok (Some (NewRNode doc))).
Proof.
  intros HO H.
  assert (Hk : maps_kept r h r h) by (split; [exact HO|]; split; auto).
  assert (Hk' : maps_kept r h r' h').
  { unfold Read, Read_as in H. destruct (Reader r) as [input|e].
    - eapply read_loop_maps_kept; [exact Hk | exact H].
    - now injection H as _ <- <-. }
  destruct Hk' as (_ & Hm & Hs). split; [exact Hm|]. split; [exact Hs|].
  intros index text doc HD HE Hempty.
  assert (Hh : holds_document text = true)
    by (unfold kio.holds_document; now rewrite HD, HE).
  destruct (decode_holds Decode IndexAnnotation r h index text Hh)
    as (doc' & HD' & _ & Hd).
  rewrite HD in HD'. injection HD' as <-. rewrite Hd. simpl.
  assert (Hmap : deref (stamp_heap r h index) (stamp_loc r h) = ∅).
  { unfold kio.stamp_heap, stamp_loc. rewrite HO.
    destruct (SetAnnotations r) as [l|] eqn:ES; [now apply Hempty|].
    unfold deref. now rewrite lookup_insert_eq. }
  rewrite Hmap, sorted_keys_empty. reflexivity.
Qed.

End ByteReader.




Lemma Read_omit_keeps_maps_witness :
  OmitReaderAnnotations (reader_omitting two_documents) = true /\
  Read decoder index_key (reader_omitting two_documents) callers_heap
  = (read_omitting.1.1, read_omitting.1.2, read_omitting.2) /\
  read_omitting.2 = callers_heap /\
  map (GetAnnotation index_key) (documents_of read_omitting.1.1) = [None; None] /\
  map (GetAnnotation "team") (documents_of read_omitting.1.1)
  = [Some "config"; Some "config"].
Proof.
  assert (H1 : OmitReaderAnnotations (reader_omitting two_documents) = true)
    by reflexivity.
  assert (H2 : Read decoder index_key (reader_omitting two_documents) callers_heap
               = (read_omitting.1.1, read_omitting.1.2, read_omitting.2))
    by (vm_compute; reflexivity).
  destruct (Read_omit_keeps_maps decoder index_key _ _ _ _ _ H1 H2) as (_ & Hs & _).
  split; [exact H1|]. split; [exact H2|].
  split; [exact (proj2 (Hs callers_map eq_refl))|].
  split; vm_compute; reflexivity.
Defined.

Lemma Walked_nested_ind (P : Walked -> Prop) :
  (forall e, P (LstatError e)) ->
  (forall info e, P (Entry info (Err e))) ->
  (forall info entries,
     Forall (fun p => P p.2) entries -> P (Entry info (Ok entries))) ->
  forall found, P found.
Proof.
  intros HL HE HO. fix IH 1. intros [e | info [entries | e]].
  - apply HL.
  - apply HO. revert entries. fix IHl 1. intros [|[name found] rest].
    + constructor.
    + constructor; [apply IH | apply IHl].
  - apply HE.
Qed.

Section WalkFacts.

Variable filepath_Join : string -> string -> string.
Context {S : Type}.

Section Invariant.

Variable walkFn : string -> option FileInfo -> option error -> S -> option error * S.
Variable I : S -> Prop.
Variable P : FileInfo -> Prop.

Hypothesis at_error : forall p e s, I s -> I (walkFn p None (Some e) s).2.
Hypothesis at_dir :
  forall p info e s, IsDir info = true -> I s -> I (walkFn p (Some info) e s).2.
Hypothesis at_file :
  forall p info s, IsDir info = false -> P info -> I s ->
    I (walkFn p (Some info) None s).2.

Lemma walk_invariant found :
  forall path s, Forall P (files_of found) -> I s ->
    I (walk filepath_Join walkFn path found s).2.
Proof.
  induction found as [e | info e | info entries IH] using Walked_nested_ind;
    intros path s HP HI; simpl.
  - now apply at_error.
  - destruct (IsDir info) eqn:Ed; simpl.
    + pose proof (at_dir path info (Some e) s Ed HI) as H1.
      now destruct (walkFn path (Some info) (Some e) s) as [[e1|] s1].
    + apply at_file; auto. simpl in HP. rewrite Ed in HP. simpl in HP.
      now inversion HP.
  - destruct (IsDir info) eqn:Ed; simpl.
    + pose proof (at_dir path info None s Ed HI) as H1.
      destruct (walkFn path (Some info) None s) as [[e1|] s1]; [exact H1|].
      simpl in H1. simpl in HP. rewrite Ed in HP. simpl in HP.
      clear HI. revert s1 H1 HP.
      induction IH as [|[name found] rest Hf _ IHrest]; intros s1 H1 HP.
      * exact H1.
      * apply Forall_app in HP as [HP1 HP2]. simpl in Hf.
        specialize (Hf (filepath_Join path name) s1 HP1 H1).
        destruct (walk filepath_Join walkFn (filepath_Join path name) found s1)
          as [[err|] s'].
        -- simpl in Hf.
           destruct (negb _ || bool_decide (err <> filepath_SkipDir));
             [exact Hf | now apply IHrest].
        -- now apply IHrest.
    + apply at_file; auto. simpl in HP. rewrite Ed in HP. simpl in HP.
      now inversion HP.
Qed.

End Invariant.

Section Agree.

Variable f g : string -> option FileInfo -> option error -> S -> option error * S.
Variable I : S -> Prop.

Hypothesis agree : forall p i e s, I s -> f p i e s = g p i e s.
Hypothesis kept : forall p i e s, I s -> I (f p i e s).2.

Lemma walk_agree found :
  forall path s, I s ->
    walk filepath_Join f path found s = walk filepath_Join g path found s /\
    I (walk filepath_Join f path found s).2.
Proof.
  induction found as [e | info e | info entries IH] using Walked_nested_ind;
    intros path s HI; simpl.
  - split; [now apply agree | now apply kept].
  - destruct (IsDir info); simpl.
    + rewrite <- agree by exact HI.
      pose proof (kept path (Some info) (Some e) s HI) as H1.
      now destruct (f path (Some info) (Some e) s) as [[e1|] s1].
    + split; [now apply agree | now apply kept].
  - destruct (IsDir info); simpl.
    + rewrite <- agree by exact HI.
      pose proof (kept path (Some info) None s HI) as H1.
      destruct (f path (Some info) None s) as [[e1|] s1]; [now split|].
      simpl in H1. clear HI. revert s1 H1.
      induction IH as [|[name found] rest Hf _ IHrest]; intros s1 H1.
      * now split.
      * simpl in Hf.
        destruct (Hf (filepath_Join path name) s1 H1) as [Heq HI'].
        rewrite <- Heq.
        destruct (walk filepath_Join f (filepath_Join path name) found s1)
          as [[err|] s'].
        -- simpl in HI'.
           destruct (negb _ || bool_decide (err <> filepath_SkipDir));
             [now split | now apply IHrest].
        -- now apply IHrest.
    + split; [now apply agree | now apply kept].
Qed.

End Agree.

End WalkFacts.

Section Matching.

Variable Decode : string -> result Node.
Variable IndexAnnotation PathAnnotation PackageAnnotation : string.
Variable GetFileAnnotations : RNode -> result (string * string).
Variable filepath_Join : string -> string -> string.
Variable filepath_Clean : string -> string.
Variable filepath_Dir : string -> string.
Variable filepath_Rel : string -> string -> result string.
Variable filepath_Match : string -> string -> result bool.
Variable os_Stat : string -> option error.
Variable os_IsNotExist : error -> bool.
Variable os_Open : string -> result (result string).

Abbreviation LocalPackageReader_Read :=
  (kio.LocalPackageReader_Read Decode IndexAnnotation PathAnnotation
     PackageAnnotation filepath_Join filepath_Clean
     filepath_Dir filepath_Rel filepath_Match os_Stat os_IsNotExist os_Open).
Abbreviation LocalPackageReadWriter_Read :=
  (kio.LocalPackageReadWriter_Read Decode IndexAnnotation PathAnnotation
     PackageAnnotation GetFileAnnotations filepath_Join filepath_Clean
     filepath_Dir filepath_Rel filepath_Match os_Stat os_IsNotExist os_Open).
Abbreviation Read_walkFn :=
  (Read_walkFn Decode IndexAnnotation PathAnnotation PackageAnnotation
     filepath_Join filepath_Dir filepath_Rel filepath_Match os_Stat
     os_IsNotExist os_Open).
Abbreviation shouldSkipFile := (shouldSkipFile filepath_Match).
Abbreviation shouldSkipFile_loop := (shouldSkipFile_loop filepath_Match).
Abbreviation shouldSkipDir := (shouldSkipDir filepath_Join os_Stat os_IsNotExist).
Abbreviation initReaderAnnotations :=
  (initReaderAnnotations PathAnnotation PackageAnnotation filepath_Dir).
Abbreviation readFile := (readFile Decode IndexAnnotation os_Open).
Abbreviation relative_to := (relative_to filepath_Dir).

Lemma walkFn_skips h0 globs path info err ws h :
  (forall i, info = Some i -> IsDir i = false ->
     shouldSkipFile_loop globs i <> Ok true) ->
  operand ws = [] /\ h = h0 /\ lpr_MatchFilesGlob (reader ws) = globs ->
  let s' := (Read_walkFn path info err (ws, h)).2 in
  operand s'.1 = [] /\ s'.2 = h0 /\ lpr_MatchFilesGlob (reader s'.1) = globs.
Proof.
  intros HP (Ho & Hh & Hg). unfold kio.Read_walkFn.
  destruct err as [e|]; [simpl; auto|].
  destruct info as [i|]; [|simpl; auto].
  destruct (String.eqb path (lpr_PackagePath (reader ws))); simpl;
    destruct (IsDir i) eqn:Ed; simpl; auto;
    unfold kio.shouldSkipFile; rewrite Hg;
    specialize (HP i eq_refl Ed);
    destruct (shouldSkipFile_loop globs i) as [[|]|e]; simpl; auto; done.
Qed.

(** X25.  When [shouldSkipFile] answers true for no file the walk comes
    to, the globs being [defaultMatch] when [MatchFilesGlob] is empty,
    [LocalPackageReader.Read] returns no document and leaves the store as
    it was. *)
Theorem Read_without_match r found h :
  Forall (fun info => shouldSkipFile_loop (globs_of r) info <> Ok true)
    (files_of found) ->
  (LocalPackageReader_Read r found h).1.1 = [] /\ (LocalPackageReader_Read r found h).2 = h.
Proof.
  intros HP. unfold kio.LocalPackageReader_Read.
  destruct (String.eqb (lpr_PackagePath r) ""); [split; reflexivity|].
  fold (globs_of r).
  set (r1 := if (length (lpr_MatchFilesGlob r) =? 0)%nat
             then lpr_with_MatchFilesGlob r defaultMatch else r).
  set (r2 := lpr_with_PackagePath r1 (filepath_Clean (lpr_PackagePath r1))).
  assert (Hg : lpr_MatchFilesGlob r2 = globs_of r).
  { unfold r2, r1, globs_of. simpl.
    now destruct (length (lpr_MatchFilesGlob r) =? 0)%nat. }
  pose proof (walk_invariant filepath_Join Read_walkFn
                (fun s => operand s.1 = [] /\ s.2 = h /\
                          lpr_MatchFilesGlob (reader s.1) = globs_of r)
                (fun info => shouldSkipFile_loop (globs_of r) info <> Ok true)) as W.
  specialize (W ltac:(intros p e [ws hh] Hi; apply (walkFn_skips h (globs_of r));
                        [discriminate | exact Hi])).
  specialize (W ltac:(intros p info e [ws hh] Hd Hi;
                        apply (walkFn_skips h (globs_of r));
                        [intros i [= <-]; congruence | exact Hi])).
  specialize (W ltac:(intros p info [ws hh] Hd Hpi Hi;
                        apply (walkFn_skips h (globs_of r));
                        [intros i [= <-] _; exact Hpi | exact Hi])).
  specialize (W found (lpr_PackagePath r2) (mkWalkState [] "" r2, h) HP
                ltac:(simpl; auto)).
  unfold Walk.
  destruct (walk filepath_Join Read_walkFn (lpr_PackagePath r2) found
              (mkWalkState [] "" r2, h)) as [err [ws h']].
  destruct W as (Ho & Hh & _). simpl in Ho, Hh.
  destruct (bool_decide (err = Some filepath_SkipDir)); simpl; auto.
Qed.

End Matching.

Section PackageWalk.

Variable Decode : string -> result Node.
Variable IndexAnnotation PathAnnotation PackageAnnotation : string.
Variable GetFileAnnotations : RNode -> result (string * string).
Variable filepath_Join : string -> string -> string.
Variable filepath_Clean : string -> string.
Variable filepath_Dir : string -> string.
Variable filepath_Rel : string -> string -> result string.
Variable filepath_Match : string -> string -> result bool.
Variable os_Stat : string -> option error.
Variable os_IsNotExist : error -> bool.
Variable os_Open : string -> result (result string).

Abbreviation LocalPackageReader_Read :=
  (kio.LocalPackageReader_Read Decode IndexAnnotation PathAnnotation
     PackageAnnotation filepath_Join filepath_Clean
     filepath_Dir filepath_Rel filepath_Match os_Stat os_IsNotExist os_Open).
Abbreviation LocalPackageReadWriter_Read :=
  (kio.LocalPackageReadWriter_Read Decode IndexAnnotation PathAnnotation
     PackageAnnotation GetFileAnnotations filepath_Join filepath_Clean
     filepath_Dir filepath_Rel filepath_Match os_Stat os_IsNotExist os_Open).
Abbreviation Read_walkFn :=
  (Read_walkFn Decode IndexAnnotation PathAnnotation PackageAnnotation
     filepath_Join filepath_Dir filepath_Rel filepath_Match os_Stat
     os_IsNotExist os_Open).
Abbreviation shouldSkipFile := (shouldSkipFile filepath_Match).
Abbreviation shouldSkipFile_loop := (shouldSkipFile_loop filepath_Match).
Abbreviation shouldSkipDir := (shouldSkipDir filepath_Join os_Stat os_IsNotExist).
Abbreviation initReaderAnnotations :=
  (initReaderAnnotations PathAnnotation PackageAnnotation filepath_Dir).
Abbreviation readFile := (readFile Decode IndexAnnotation os_Open).
Abbreviation relative_to := (relative_to filepath_Dir).
Abbreviation wrote_path :=
  (wrote_path PathAnnotation PackageAnnotation filepath_Dir).

Lemma initReaderAnnotations_reader r h path info :
  (initReaderAnnotations r h path info).1
  = lpr_with_SetAnnotations r (Some (init_loc r h)).
Proof.
  unfold kio.initReaderAnnotations, init_loc, map_alloc.
  destruct (lpr_SetAnnotations r); destruct (lpr_OmitReaderAnnotations r); reflexivity.
Qed.

Lemma walkFn_same_settings r0 path info err ws h :
  same_settings r0 (reader ws) ->
  same_settings r0 (reader (Read_walkFn path info err (ws, h)).2.1).
Proof.
  intros HI. unfold kio.Read_walkFn.
  destruct err as [e|]; [exact HI|].
  destruct info as [i|]; [|exact HI].
  destruct (String.eqb path (lpr_PackagePath (reader ws))); simpl;
    destruct (IsDir i); simpl; try exact HI;
    (destruct (shouldSkipFile (reader ws) path i) as [[|]|e]; try exact HI);
    (destruct (filepath_Rel _ path) as [path'|e]; try exact HI);
    pose proof (initReaderAnnotations_reader (reader ws) h path' i) as Hr;
    destruct (initReaderAnnotations (reader ws) h path' i) as [r1 h1];
    simpl in Hr; subst r1;
    destruct (readFile _ h1 _ i) as [[nodes|e] h2]; simpl; exact HI.
Qed.

Lemma walk_same_settings r0 found path ws h :
  same_settings r0 (reader ws) ->
  same_settings r0
    (reader (walk filepath_Join Read_walkFn path found (ws, h)).2.1).
Proof.
  intros HI.
  apply (walk_invariant filepath_Join Read_walkFn
           (fun s => same_settings r0 (reader s.1)) (fun _ => True)).
  - intros p e [ws' h'] H. now apply walkFn_same_settings.
  - intros p i e [ws' h'] _ H. now apply walkFn_same_settings.
  - intros p i [ws' h'] _ _ H. now apply walkFn_same_settings.
  - apply Forall_forall. auto.
  - exact HI.
Qed.

Lemma same_settings_fields r0 r :
  same_settings r0 r ->
  lpr_PackagePath r = lpr_PackagePath r0 /\
  lpr_PackageFileName r = lpr_PackageFileName r0 /\
  lpr_IncludeSubpackages r = lpr_IncludeSubpackages r0.
Proof.
  unfold same_settings, lpr_with_SetAnnotations. intros H.
  injection H as _ H1 H2 _ H3 _ _. auto.
Qed.

#[local] Arguments kio.Read_walkFn : simpl never.

(** X24.  With [PackageFileName] set and [IncludeSubpackages] false, a
    directory in the package root that holds the package file, and whose
    names can be read, is not entered: [LocalPackageReader.Read] returns
    the documents and the error, and leaves the store, that it does for
    the package without that directory. *)
Theorem Read_skips_subpackage r info before name subinfo sub rest h :
  IsDir subinfo = true ->
  lpr_PackageFileName r <> "" ->
  lpr_IncludeSubpackages r = false ->
  filepath_Join (filepath_Clean (lpr_PackagePath r)) name
    <> filepath_Clean (lpr_PackagePath r) ->
  os_Stat (filepath_Join (filepath_Join (filepath_Clean (lpr_PackagePath r)) name)
             (lpr_PackageFileName r)) = None ->
  LocalPackageReader_Read r (Entry info (Ok (before ++ (name, Entry subinfo (Ok sub)) :: rest))) h
  = LocalPackageReader_Read r (Entry info (Ok (before ++ rest))) h.
Proof.
  intros Hd Hpf Hinc Hne Hstat. unfold kio.LocalPackageReader_Read.
  destruct (String.eqb (lpr_PackagePath r) ""); [reflexivity|].
  set (r1 := if (length (lpr_MatchFilesGlob r) =? 0)%nat
             then lpr_with_MatchFilesGlob r defaultMatch else r).
  assert (Hp1 : lpr_PackagePath r1 = lpr_PackagePath r)
    by (unfold r1; now destruct (length (lpr_MatchFilesGlob r) =? 0)%nat).
  assert (Hf1 : lpr_PackageFileName r1 = lpr_PackageFileName r)
    by (unfold r1; now destruct (length (lpr_MatchFilesGlob r) =? 0)%nat).
  assert (Hi1 : lpr_IncludeSubpackages r1 = lpr_IncludeSubpackages r)
    by (unfold r1; now destruct (length (lpr_MatchFilesGlob r) =? 0)%nat).
  set (r2 := lpr_with_PackagePath r1 (filepath_Clean (lpr_PackagePath r1))).
  set (root := lpr_PackagePath r2).
  assert (Hroot : root = filepath_Clean (lpr_PackagePath r))
    by (unfold root, r2; simpl; now rewrite Hp1).
  unfold Walk. simpl walk.
  destruct (negb (IsDir info)); [reflexivity|].
  pose proof (walkFn_same_settings r2 root (Some info) None (mkWalkState [] "" r2) h
                eq_refl) as HI.
  destruct (Read_walkFn root (Some info) None (mkWalkState [] "" r2, h))
    as [[e1|] [ws1 h1]]; [reflexivity|].
  simpl in HI.
  match goal with
  | |- (let '(_, _) := let '(_, _) := ?a in _ in _)
       = (let '(_, _) := let '(_, _) := ?b in _ in _) =>
      assert (E : a = b); [|now rewrite E]
  end.
  revert ws1 h1 HI. induction before as [|[n0 f0] before IH]; intros ws1 h1 HI.
  - cbn [app].
    assert (Hw : walk filepath_Join Read_walkFn (filepath_Join root name)
                   (Entry subinfo (Ok sub)) (ws1, h1)
                 = (Some filepath_SkipDir, (ws1, h1))).
    { simpl. rewrite Hd. simpl.
      destruct (same_settings_fields _ _ HI) as (Hp & Hf & Hi).
      assert (Hs : Read_walkFn (filepath_Join root name) (Some subinfo) None (ws1, h1)
                   = (Some filepath_SkipDir, (ws1, h1))).
      { unfold kio.Read_walkFn. rewrite Hp.
        fold root.
        destruct (String.eqb_spec (filepath_Join root name) root) as [E|_];
          [rewrite Hroot in E; contradiction|].
        simpl. rewrite Hd. unfold kio.shouldSkipDir. rewrite Hf, Hi.
        unfold r2 at 1 2 3. simpl. rewrite Hf1, Hi1, Hinc.
        destruct (String.eqb_spec (lpr_PackageFileName r) "") as [E|_];
          [contradiction|].
        rewrite Hroot, Hstat. reflexivity. }
      rewrite Hs. reflexivity. }
    rewrite Hw. rewrite Hd. reflexivity.
  - cbn [app].
    pose proof (walk_same_settings r2 f0 (filepath_Join root n0) ws1 h1 HI) as HI'.
    destruct (walk filepath_Join Read_walkFn (filepath_Join root n0) f0 (ws1, h1))
      as [[err|] [ws' h']]; simpl in HI'.
    + destruct (negb _ || bool_decide (err <> filepath_SkipDir));
        [reflexivity | now apply IH].
    + now apply IH.
Qed.

End PackageWalk.

Section ReadWriterWalk.

Variable Decode : string -> result Node.
Variable IndexAnnotation PathAnnotation PackageAnnotation : string.
Variable GetFileAnnotations : RNode -> result (string * string).
Variable filepath_Join : string -> string -> string.
Variable filepath_Clean : string -> string.
Variable filepath_Dir : string -> string.
Variable filepath_Rel : string -> string -> result string.
Variable filepath_Match : string -> string -> result bool.
Variable os_Stat os_Stat' : string -> option error.
Variable os_IsNotExist os_IsNotExist' : error -> bool.
Variable os_Open : string -> result (result string).

Abbreviation walkFn_with stat is_not_exist :=
  (kio.Read_walkFn Decode IndexAnnotation PathAnnotation PackageAnnotation
     filepath_Join filepath_Dir filepath_Rel filepath_Match stat is_not_exist
     os_Open).
Abbreviation LPR_Read_with stat is_not_exist :=
  (kio.LocalPackageReader_Read Decode IndexAnnotation PathAnnotation
     PackageAnnotation filepath_Join filepath_Clean
     filepath_Dir filepath_Rel filepath_Match stat is_not_exist os_Open).
Abbreviation RW_Read_with stat is_not_exist :=
  (kio.LocalPackageReadWriter_Read Decode IndexAnnotation PathAnnotation
     PackageAnnotation GetFileAnnotations filepath_Join filepath_Clean
     filepath_Dir filepath_Rel filepath_Match stat is_not_exist os_Open).

Lemma walkFn_without_marker path info err ws h :
  lpr_PackageFileName (reader ws) = "" ->
  walkFn_with os_Stat os_IsNotExist path info err (ws, h)
  = walkFn_with os_Stat' os_IsNotExist' path info err (ws, h).
Proof.
  intros HI. unfold kio.Read_walkFn, shouldSkipDir. rewrite HI. reflexivity.
Qed.

Lemma Read_without_marker r found h :
  lpr_PackageFileName r = "" ->
  LPR_Read_with os_Stat os_IsNotExist r found h
  = LPR_Read_with os_Stat' os_IsNotExist' r found h.
Proof.
  intros Hpf. unfold kio.LocalPackageReader_Read.
  destruct (String.eqb (lpr_PackagePath r) ""); [reflexivity|].
  set (r1 := if (length (lpr_MatchFilesGlob r) =? 0)%nat
             then lpr_with_MatchFilesGlob r defaultMatch else r).
  set (r2 := lpr_with_PackagePath r1 (filepath_Clean (lpr_PackagePath r1))).
  assert (Hf2 : lpr_PackageFileName r2 = "")
    by (unfold r2, r1; simpl; now destruct (length (lpr_MatchFilesGlob r) =? 0)%nat).
  unfold Walk.
  destruct (walk_agree filepath_Join
              (walkFn_with os_Stat os_IsNotExist)
              (walkFn_with os_Stat' os_IsNotExist')
              (fun s => same_settings r2 (reader s.1))
              ltac:(intros p i e [ws hh] H; apply walkFn_without_marker;
                    destruct (same_settings_fields _ _ H) as (_ & Hf & _);
                    simpl in Hf; now rewrite Hf)
              ltac:(intros p i e [ws hh] H; now apply walkFn_same_settings)
              found (lpr_PackagePath r2) (mkWalkState [] "" r2, h) eq_refl)
    as [-> _].
  reflexivity.
Qed.

(** X23.  [LocalPackageReadWriter.Read] hands its reader neither
    [PackageFileName] nor [OmitReaderAnnotations]: what it returns and
    what it leaves in the store are the same whatever the two fields hold
    and whatever [os.Stat] and [os.IsNotExist] answer.  No directory is
    left out as a subpackage. *)
Theorem ReadWriter_Read_ignores_marker r found h name omit :
  RW_Read_with os_Stat' os_IsNotExist'
    (rw_with_PackageFileName_Omit r name omit) found h
  = let '(res, r', h') := RW_Read_with os_Stat os_IsNotExist r found h in
    (res, rw_with_PackageFileName_Omit r' name omit, h').
Proof.
  unfold kio.LocalPackageReadWriter_Read.
  change (rw_PackagePath (rw_with_PackageFileName_Omit r name omit))
    with (rw_PackagePath r).
  change (rw_MatchFilesGlob (rw_with_PackageFileName_Omit r name omit))
    with (rw_MatchFilesGlob r).
  change (rw_IncludeSubpackages (rw_with_PackageFileName_Omit r name omit))
    with (rw_IncludeSubpackages r).
  change (rw_ErrorIfNonResources (rw_with_PackageFileName_Omit r name omit))
    with (rw_ErrorIfNonResources r).
  change (rw_SetAnnotations (rw_with_PackageFileName_Omit r name omit))
    with (rw_SetAnnotations r).
  change (rw_NoDeleteFiles (rw_with_PackageFileName_Omit r name omit))
    with (rw_NoDeleteFiles r).
  pose proof (Read_without_marker (rw_reader r) found h eq_refl) as E.
  unfold rw_reader in E. rewrite E.
  destruct (LPR_Read_with os_Stat' os_IsNotExist' _ found h) as [[nodes [e|]] h'];
    [reflexivity|].
  destruct (negb (rw_NoDeleteFiles r)); [|reflexivity].
  unfold getFiles. destruct (getFiles_loop GetFileAnnotations nodes ∅); reflexivity.
Qed.

End ReadWriterWalk.

Section PackageFiles.

Variable Decode : string -> result Node.
Variable IndexAnnotation PathAnnotation PackageAnnotation : string.
Variable GetFileAnnotations : RNode -> result (string * string).
Variable filepath_Join : string -> string -> string.
Variable filepath_Clean : string -> string.
Variable filepath_Dir : string -> string.
Variable filepath_Rel : string -> string -> result string.
Variable filepath_Match : string -> string -> result bool.
Variable os_Stat : string -> option error.
Variable os_IsNotExist : error -> bool.
Variable os_Open : string -> result (result string).
Variable FS : Type.
Variable os_Remove : string -> FS -> option error * FS.
Variable LocalPackageWriter_Write :
  LocalPackageWriter -> list RNode -> FS -> option error * FS.
Variable range_order : gset string -> list string.

Abbreviation getFiles := (getFiles GetFileAnnotations).
Abbreviation getFiles_loop := (getFiles_loop GetFileAnnotations).
Abbreviation LocalPackageReadWriter_Read :=
  (kio.LocalPackageReadWriter_Read Decode IndexAnnotation PathAnnotation
     PackageAnnotation GetFileAnnotations filepath_Join filepath_Clean
     filepath_Dir filepath_Rel filepath_Match os_Stat os_IsNotExist os_Open).
Abbreviation LocalPackageReadWriter_Write :=
  (kio.LocalPackageReadWriter_Write GetFileAnnotations filepath_Join FS os_Remove
     LocalPackageWriter_Write range_order).
Abbreviation SetAnnotations_keys := (SetAnnotations_keys range_order).
Abbreviation Read_walkFn :=
  (Read_walkFn Decode IndexAnnotation PathAnnotation PackageAnnotation
     filepath_Join filepath_Dir filepath_Rel filepath_Match os_Stat
     os_IsNotExist os_Open).
Abbreviation shouldSkipFile := (shouldSkipFile filepath_Match).
Abbreviation initReaderAnnotations :=
  (initReaderAnnotations PathAnnotation PackageAnnotation filepath_Dir).
Abbreviation relative_to := (relative_to filepath_Dir).
Abbreviation package_writer r h :=
  (mkLocalPackageWriter (rw_PackagePath r) (SetAnnotations_keys r h)
     (rw_KeepReaderAnnotations r)).


(** X22.  [LocalPackageReadWriter.Read] with an empty [PackagePath]
    fails with the error of [LocalPackageReader.Read], whatever is at the
    path: the read-writer, the files it tracks included, and the store are
    as they were. *)
Theorem Read_requires_PackagePath r found h :
  rw_PackagePath r = "" ->
  LocalPackageReadWriter_Read r found h = (Err (errorString "must specify package path"), r, h).
Proof.
  intros H. unfold kio.LocalPackageReadWriter_Read, kio.LocalPackageReader_Read.
  simpl. rewrite H. reflexivity.
Qed.

Lemma Write_covered r nodes h fs newFiles :
  (forall s, range_order s ≡ₚ elements s) ->
  getFiles r nodes = Ok newFiles ->
  files r ⊆ newFiles ->
  LocalPackageReadWriter_Write r nodes h fs
  = ((LocalPackageWriter_Write (package_writer r h) nodes fs).1, r,
     (LocalPackageWriter_Write (package_writer r h) nodes fs).2).
Proof.
  intros Hperm Hnew Hsub. unfold kio.LocalPackageReadWriter_Write. rewrite Hnew.
  fold (SetAnnotations_keys r h).
  destruct (LocalPackageWriter_Write (package_writer r h) nodes fs) as [[e|] fs1];
    [reflexivity|].
  assert (Hd : files r ∖ newFiles = ∅) by now apply subseteq_empty_difference_L.
  assert (E : range_order (files r ∖ newFiles) = []).
  { apply Permutation_nil_r. now rewrite Hperm, Hd, elements_empty. }
  rewrite E. reflexivity.
Qed.


Lemma getFiles_loop_error nodes val e :
  getFiles_loop nodes val = Err e <->
  exists before n rest,
    nodes = before ++ n :: rest /\
    Forall (fun m => exists pi, GetFileAnnotations m = Ok pi) before /\
    GetFileAnnotations n = Err e.
Proof.
  revert val. induction nodes as [|n rest IH]; intros val; simpl.
  - split; [discriminate|]. intros (b & m & a & H & _). destruct b; discriminate.
  - destruct (GetFileAnnotations n) as [[p i]|e'] eqn:En.
    + rewrite IH. split.
      * intros (b & m & a & -> & HF & Hm). exists (n :: b), m, a.
        split; [reflexivity|]. split; [constructor; eauto | exact Hm].
      * intros (b & m & a & Hl & HF & Hm). destruct b as [|b0 b].
        -- simpl in Hl. injection Hl as <- _. congruence.
        -- simpl in Hl. injection Hl as <- ->. inversion HF; subst.
           exists b, m, a. auto.
    + split.
      * intros H. injection H as <-. exists [], n, rest. auto.
      * intros (b & m & a & Hl & HF & Hm). destruct b as [|b0 b].
        -- simpl in Hl. injection Hl as <- _. congruence.
        -- simpl in Hl. injection Hl as <- ->. inversion HF as [|? ? [pi Hp] ?]; subst.
           congruence.
Qed.

(** X16.  When every node written has file annotations and every tracked
    file is the path annotation of a node written, [Write] removes no
    file: it ends as the package writer ends, with the file system the
    package writer leaves. *)
Theorem Write_covering_removes_nothing r nodes h fs :
  (forall s, range_order s ≡ₚ elements s) ->
  (forall p, p ∈ files r -> path_of_some GetFileAnnotations nodes p) ->
  (forall n, n ∈ nodes -> exists pi, GetFileAnnotations n = Ok pi) ->
  LocalPackageReadWriter_Write r nodes h fs
  = ((LocalPackageWriter_Write (package_writer r h) nodes fs).1, r,
     (LocalPackageWriter_Write (package_writer r h) nodes fs).2).
Proof.
  intros Hperm Hcov Hok.
  destruct (getFiles r nodes) as [newFiles|e] eqn:E.
  - apply Write_covered with (newFiles := newFiles); try assumption.
    intros p Hp. apply (getFiles_spec GetFileAnnotations r nodes newFiles E).
    now apply Hcov.
  - exfalso. apply getFiles_loop_error in E as (b & n & a & -> & _ & Hn).
    destruct (Hok n) as [pi Hpi]; [|congruence].
    apply elem_of_app. right. left.
Qed.

(** X17.  Writing back the documents that a [Read] with [NoDeleteFiles]
    false has returned removes no file, whatever the store and the file
    system have become: [Write] ends as the package writer ends. *)
Theorem Read_then_Write_removes_nothing r found h nodes r' h' h2 fs :
  (forall s, range_order s ≡ₚ elements s) ->
  rw_NoDeleteFiles r = false ->
  LocalPackageReadWriter_Read r found h = (Ok nodes, r', h') ->
  LocalPackageReadWriter_Write r' nodes h2 fs
  = ((LocalPackageWriter_Write (package_writer r' h2) nodes fs).1, r',
     (LocalPackageWriter_Write (package_writer r' h2) nodes fs).2).
Proof.
  intros Hperm HN H.
  unfold kio.LocalPackageReadWriter_Read in H.
  destruct (kio.LocalPackageReader_Read _ _ _ _ _ _ _ _ _ _ _ _ _ _ _)
    as [[nodes0 [e|]] h0]; [discriminate|].
  rewrite HN in H. simpl in H.
  destruct (getFiles r nodes0) as [fs0|e] eqn:E; [|discriminate].
  injection H as <- <- _.
  apply Write_covered with (newFiles := fs0); try assumption.
  simpl. reflexivity.
Qed.

Lemma shouldSkipFile_loop_first globs info o :
  o <> Ok false ->
  kio.shouldSkipFile_loop filepath_Match globs info = o <->
  exists before g rest,
    globs = before ++ g :: rest /\
    Forall (fun b => filepath_Match b (Name info) = Ok false) before /\
    filepath_Match g (Name info) = o.
Proof.
  intros Ho. induction globs as [|g rest IH]; simpl.
  - split; [congruence|]. intros (b & m & a & H & _). destruct b; discriminate.
  - destruct (filepath_Match g (Name info)) as [[|]|e] eqn:Eg.
    + split.
      * intros <-. exists [], g, rest. auto.
      * intros (b & m & a & Hl & HF & Hm). destruct b as [|b0 b].
        -- simpl in Hl. injection Hl as <- _. congruence.
        -- simpl in Hl. injection Hl as <- ->. inversion HF; subst. congruence.
    + rewrite IH. split.
      * intros (b & m & a & -> & HF & Hm). exists (g :: b), m, a.
        split; [reflexivity|]. split; [constructor; assumption | exact Hm].
      * intros (b & m & a & Hl & HF & Hm). destruct b as [|b0 b].
        -- simpl in Hl. injection Hl as <- _. congruence.
        -- simpl in Hl. injection Hl as <- ->. inversion HF; subst.
           exists b, m, a. auto.
    + split.
      * intros <-. exists [], g, rest. auto.
      * intros (b & m & a & Hl & HF & Hm). destruct b as [|b0 b].
        -- simpl in Hl. injection Hl as <- _. congruence.
        -- simpl in Hl. injection Hl as <- ->. inversion HF; subst. congruence.
Qed.

(** X20.  [shouldSkipFile] answers with the first glob for which
    [filepath.Match] on the name of the file does not say no: true exactly
    when that glob matches, the error exactly when the match fails, and
    false exactly when every glob says no.  The path plays no part; true
    is the answer for a file that is read. *)
Theorem shouldSkipFile_first_match r path info :
  let first_gives o :=
    exists before g rest,
      lpr_MatchFilesGlob r = before ++ g :: rest /\
      Forall (fun b => filepath_Match b (Name info) = Ok false) before /\
      filepath_Match g (Name info) = o in
  (shouldSkipFile r path info = Ok true <-> first_gives (Ok true)) /\
  (forall e, shouldSkipFile r path info = Err e <-> first_gives (Err e)) /\
  (shouldSkipFile r path info = Ok false <->
   Forall (fun b => filepath_Match b (Name info) = Ok false) (lpr_MatchFilesGlob r)).
Proof.
  intros first_gives. unfold kio.shouldSkipFile. split; [|split].
  - now apply shouldSkipFile_loop_first.
  - intros e. now apply shouldSkipFile_loop_first.
  - induction (lpr_MatchFilesGlob r) as [|g rest IH]; simpl.
    + split; [constructor | reflexivity].
    + destruct (filepath_Match g (Name info)) as [[|]|e] eqn:Eg.
      * split; [discriminate|]. intros H. inversion H; congruence.
      * rewrite IH. split; [now constructor | intros H; now inversion H].
      * split; [discriminate|]. intros H. inversion H; congruence.
Qed.

(** X21.  A read-writer with [NoDeleteFiles] true that tracks no file
    is left as it was by [Read], however [Read] ends, and its [Write]
    removes no file: it ends with the error of [getFiles] and the file
    system as it was, or as the package writer ends. *)
Theorem NoDeleteFiles_removes_nothing r found h res r' h' written h2 fs :
  (forall s, range_order s ≡ₚ elements s) ->
  rw_NoDeleteFiles r = true ->
  files r = ∅ ->
  LocalPackageReadWriter_Read r found h = (res, r', h') ->
  r' = r /\
  LocalPackageReadWriter_Write r' written h2 fs
  = match getFiles r' written with
    | Err e => (Some e, r', fs)
    | Ok _ =>
        ((LocalPackageWriter_Write (package_writer r' h2) written fs).1, r',
         (LocalPackageWriter_Write (package_writer r' h2) written fs).2)
    end.
Proof.
  intros Hperm HN Hf H.
  assert (Hr : r' = r).
  { unfold kio.LocalPackageReadWriter_Read in H.
    destruct (kio.LocalPackageReader_Read _ _ _ _ _ _ _ _ _ _ _ _ _ _ _)
      as [[nodes0 [e|]] h0]; [now injection H as _ <- _|].
    rewrite HN in H. simpl in H. now injection H as _ <- _. }
  split; [exact Hr|]. subst r'.
  destruct (getFiles r written) as [newFiles|e] eqn:E.
  - apply Write_covered with (newFiles := newFiles); try assumption.
    rewrite Hf. set_solver.
  - unfold kio.LocalPackageReadWriter_Write. now rewrite E.
Qed.

(** X19.  [getFiles] fails exactly when [kioutil.GetFileAnnotations]
    fails for one of the nodes, and then with the error of the first node
    for which it fails. *)
Theorem getFiles_first_error r nodes e :
  getFiles r nodes = Err e <->
  exists before n rest,
    nodes = before ++ n :: rest /\
    Forall (fun m => exists pi, GetFileAnnotations m = Ok pi) before /\
    GetFileAnnotations n = Err e.
Proof. apply getFiles_loop_error. Qed.


End PackageFiles.

Lemma Write_covering_removes_nothing_witness :
  (forall s : gset string, elements s ≡ₚ elements s) /\
  (forall p, p ∈ files after_read -> path_of_some file_annotations pkg_nodes p) /\
  (forall n, n ∈ pkg_nodes -> exists pi, file_annotations n = Ok pi) /\
  pkg_Write after_read pkg_nodes heap_after_read pkg_files
  = (None, after_read, pkg_files).
Proof.
  assert (H1 : forall s : gset string, elements s ≡ₚ elements s) by reflexivity.
  assert (H2 : forall p, p ∈ files after_read ->
                 path_of_some file_annotations pkg_nodes p).
  { intros p Hp.
    assert (Hf : files after_read = {[ "a.yaml"; "b.yaml" ]})
      by (vm_compute; reflexivity).
    rewrite Hf in Hp. apply elem_of_union in Hp as [Hp | Hp];
      apply elem_of_singleton in Hp; subst p.
    - assert (Hn : exists n, pkg_nodes !! 0%nat = Some n) by (eexists; reflexivity).
      destruct Hn as [n Hn]. exists n, "0".
      split; [eapply list_elem_of_lookup_2; exact Hn|].
      vm_compute in Hn. injection Hn as <-. vm_compute. reflexivity.
    - assert (Hn : exists n, pkg_nodes !! 2%nat = Some n) by (eexists; reflexivity).
      destruct Hn as [n Hn]. exists n, "0".
      split; [eapply list_elem_of_lookup_2; exact Hn|].
      vm_compute in Hn. injection Hn as <-. vm_compute. reflexivity. }
  assert (H3 : forall n, n ∈ pkg_nodes -> exists pi, file_annotations n = Ok pi)
    by (intros n _; eexists; reflexivity).
  assert (Hw : set_Write
                 (mkLocalPackageWriter (rw_PackagePath after_read)
                    (SetAnnotations_keys elements after_read heap_after_read)
                    (rw_KeepReaderAnnotations after_read))
                 pkg_nodes pkg_files = (None, pkg_files))
    by (vm_compute; reflexivity).
  pose proof (Write_covering_removes_nothing file_annotations flat_Join
                (gset string) set_Remove set_Write elements after_read pkg_nodes
                heap_after_read pkg_files H1 H2 H3) as E.
  rewrite Hw in E.
  split; [exact H1|]. split; [exact H2|]. split; [exact H3 | exact E].
Defined.

Lemma Read_then_Write_removes_nothing_witness :
  (forall s : gset string, elements s ≡ₚ elements s) /\
  rw_NoDeleteFiles pkg_read_writer = false /\
  pkg_Read pkg_read_writer ∅ = (Ok pkg_nodes, after_read, heap_after_read) /\
  pkg_Write after_read pkg_nodes heap_after_read pkg_files
  = (None, after_read, pkg_files).
Proof.
  assert (H1 : forall s : gset string, elements s ≡ₚ elements s) by reflexivity.
  assert (H2 : rw_NoDeleteFiles pkg_read_writer = false) by reflexivity.
  assert (H3 : pkg_Read pkg_read_writer ∅
               = (Ok pkg_nodes, after_read, heap_after_read))
    by (vm_compute; reflexivity).
  assert (Hw : set_Write
                 (mkLocalPackageWriter (rw_PackagePath after_read)
                    (SetAnnotations_keys elements after_read heap_after_read)
                    (rw_KeepReaderAnnotations after_read))
                 pkg_nodes pkg_files = (None, pkg_files))
    by (vm_compute; reflexivity).
  pose proof (Read_then_Write_removes_nothing decoder index_key path_key
                package_key file_annotations flat_Join flat_Clean flat_Dir
                flat_Rel flat_Match flat_Stat flat_IsNotExist flat_Open
                (gset string) set_Remove set_Write elements
                pkg_read_writer pkg ∅ pkg_nodes after_read heap_after_read
                heap_after_read pkg_files H1 H2 H3) as E.
  rewrite Hw in E.
  split; [exact H1|]. split; [exact H2|]. split; [exact H3 | exact E].
Defined.


Lemma NoDeleteFiles_removes_nothing_witness :
  (forall s : gset string, elements s ≡ₚ elements s) /\
  rw_NoDeleteFiles pkg_keeper = true /\
  files pkg_keeper = ∅ /\
  pkg_Read pkg_keeper ∅ = (keeper_read.1.1, keeper_read.1.2, keeper_read.2) /\
  keeper_read.1.1 = Ok pkg_nodes /\
  keeper_read.1.2 = pkg_keeper /\
  pkg_Write keeper_read.1.2 kept_nodes keeper_read.2 pkg_files
  = (None, keeper_read.1.2, pkg_files).
Proof.
  assert (H1 : forall s : gset string, elements s ≡ₚ elements s) by reflexivity.
  assert (H2 : rw_NoDeleteFiles pkg_keeper = true) by reflexivity.
  assert (H3 : files pkg_keeper = ∅) by reflexivity.
  assert (H4 : pkg_Read pkg_keeper ∅
               = (keeper_read.1.1, keeper_read.1.2, keeper_read.2))
    by (vm_compute; reflexivity).
  assert (Hg : getFiles file_annotations keeper_read.1.2 kept_nodes
               = Ok {[ "a.yaml" ]})
    by (vm_compute; reflexivity).
  assert (Hw : set_Write
                 (mkLocalPackageWriter (rw_PackagePath keeper_read.1.2)
                    (SetAnnotations_keys elements keeper_read.1.2 keeper_read.2)
                    (rw_KeepReaderAnnotations keeper_read.1.2))
                 kept_nodes pkg_files = (None, pkg_files))
    by (vm_compute; reflexivity).
  destruct (NoDeleteFiles_removes_nothing decoder index_key path_key
              package_key file_annotations flat_Join flat_Clean flat_Dir
              flat_Rel flat_Match flat_Stat flat_IsNotExist flat_Open
              (gset string) set_Remove set_Write elements
              pkg_keeper pkg ∅ keeper_read.1.1 keeper_read.1.2 keeper_read.2
              kept_nodes keeper_read.2 pkg_files H1 H2 H3 H4) as [Hr E].
  rewrite Hg, Hw in E.
  split; [exact H1|]. split; [exact H2|]. split; [exact H3|]. split; [exact H4|].
  split; [vm_compute; reflexivity|]. split; [exact Hr | exact E].
Defined.

Lemma Read_requires_PackagePath_witness :
  rw_PackagePath no_path = "" /\
  pkg_Read no_path callers_heap
  = (Err (errorString "must specify package path"), no_path, callers_heap).
Proof.
  assert (H : rw_PackagePath no_path = "") by reflexivity.
  split; [exact H|].
  exact (Read_requires_PackagePath decoder index_key path_key package_key
           file_annotations flat_Join flat_Clean flat_Dir flat_Rel flat_Match
           flat_Stat flat_IsNotExist flat_Open no_path pkg callers_heap H).
Defined.

Lemma Read_skips_subpackage_witness :
  IsDir (mkFileInfo "sub" true) = true /\
  lpr_PackageFileName marker_reader <> "" /\
  lpr_IncludeSubpackages marker_reader = false /\
  flat_Join (flat_Clean (lpr_PackagePath marker_reader)) "sub"
    <> flat_Clean (lpr_PackagePath marker_reader) /\
  marker_Stat (flat_Join (flat_Join (flat_Clean (lpr_PackagePath marker_reader)) "sub")
                 (lpr_PackageFileName marker_reader)) = None /\
  marker_Read pkg_with_sub = marker_Read pkg /\
  (marker_Read pkg).1 = (pkg_nodes, None).
Proof.
  assert (H1 : IsDir (mkFileInfo "sub" true) = true) by reflexivity.
  assert (H2 : lpr_PackageFileName marker_reader <> "") by discriminate.
  assert (H3 : lpr_IncludeSubpackages marker_reader = false) by reflexivity.
  assert (H4 : flat_Join (flat_Clean (lpr_PackagePath marker_reader)) "sub"
               <> flat_Clean (lpr_PackagePath marker_reader)) by discriminate.
  assert (H5 : marker_Stat
                 (flat_Join (flat_Join (flat_Clean (lpr_PackagePath marker_reader))
                               "sub")
                    (lpr_PackageFileName marker_reader)) = None)
    by (vm_compute; reflexivity).
  split; [exact H1|]. split; [exact H2|]. split; [exact H3|]. split; [exact H4|].
  split; [exact H5|]. split.
  - exact (Read_skips_subpackage decoder index_key path_key package_key flat_Join
             flat_Clean flat_Dir flat_Rel flat_Match marker_Stat flat_IsNotExist
             flat_Open marker_reader (mkFileInfo "pkg" true)
             [("a.yaml", file "a.yaml")] "sub" (mkFileInfo "sub" true)
             [("c.yaml", file "c.yaml")]
             [("b.yaml", file "b.yaml"); ("notes.txt", file "notes.txt")] ∅
             H1 H2 H3 H4 H5).
  - vm_compute. reflexivity.
Defined.

Lemma Read_without_match_witness :
  Forall (fun info => shouldSkipFile_loop flat_Match (globs_of pkg_reader) info
                        <> Ok true)
    (files_of pkg_of_notes) /\
  files_of pkg_of_notes = [mkFileInfo "notes.txt" false; mkFileInfo "README.md" false] /\
  (LocalPackageReader_Read decoder index_key path_key package_key flat_Join
     flat_Clean flat_Dir flat_Rel flat_Match flat_Stat flat_IsNotExist flat_Open
     pkg_reader pkg_of_notes callers_heap).1.1 = [] /\
  (LocalPackageReader_Read decoder index_key path_key package_key flat_Join
     flat_Clean flat_Dir flat_Rel flat_Match flat_Stat flat_IsNotExist flat_Open
     pkg_reader pkg_of_notes callers_heap).2 = callers_heap.
Proof.
  assert (H : Forall (fun info => shouldSkipFile_loop flat_Match (globs_of pkg_reader)
                                    info <> Ok true)
                (files_of pkg_of_notes))
    by (repeat constructor; vm_compute; discriminate).
  split; [exact H|]. split; [reflexivity|].
  exact (Read_without_match decoder index_key path_key package_key flat_Join
           flat_Clean flat_Dir flat_Rel flat_Match flat_Stat flat_IsNotExist
           flat_Open pkg_reader pkg_of_notes callers_heap H).
Defined.


Section ReadWriterBytes.

Variable Decode : string -> result Node.
Variable IndexAnnotation : string.

Abbreviation decode := (decode Decode IndexAnnotation).
Abbreviation plain := (plain Decode).
Abbreviation ByteReadWriter_Read :=
  (kio.ByteReadWriter_Read Decode IndexAnnotation).
Abbreviation Read_body := (Read_body Decode IndexAnnotation).
Abbreviation read_loop := (read_loop Decode IndexAnnotation).

Lemma decode_wrapping r h index text res r1 h1 :
  decode r h index text = (res, r1, h1) -> wrapping r1 = wrapping r.
Proof.
  intros H.
  destruct (decode_reader Decode IndexAnnotation _ _ _ _ _ _ _ H) as [-> | ->];
    reflexivity.
Qed.

Lemma read_loop_plain {A} (direct item : RNode -> A) values r h out index res r' h' :
  Forall plain values ->
  read_loop direct item values r h out index = (res, r', h') ->
  wrapping r' = wrapping r.
Proof.
  intros HF. revert r h out index.
  induction HF as [|text rest Hp _ IH]; intros r h out index H; simpl in H.
  - now injection H as _ <- _.
  - destruct (Read_body_cases Decode IndexAnnotation direct item text r h out index)
      as (res1 & r1 & h1 & Hd & Hc).
    pose proof (decode_wrapping _ _ _ _ _ _ _ Hd) as Hw.
    destruct Hc as [[E _] | [(e & _ & _ & E) | [(node & -> & _ & HW & E)
                   | (node & _ & _ & _ & E)]]]; rewrite E in H.
    + rewrite <- Hw. eapply IH; exact H.
    + now injection H as _ <- _.
    + exfalso.
      destruct (decode_annotations Decode IndexAnnotation _ _ _ _ _ _ _ Hd)
        as (doc & l & HD & _).
      destruct (decode_same_fields Decode IndexAnnotation _ _ _ _ _ _ _ _ HD Hd)
        as [Hs _].
      rewrite (same_fields_wrapping _ _ Hs), (Hp doc HD) in HW. discriminate.
    + rewrite <- Hw. eapply IH; exact H.
Qed.

Lemma Read_keeps_held_maps r h res r' h' :
  SetAnnotations r = None ->
  Read Decode IndexAnnotation r h = (res, r', h') ->
  forall l, is_Some (h !! l) -> deref h' l = deref h l.
Proof.
  intros HS H l Hl. unfold Read, Read_as in H.
  destruct (Reader r) as [input|e]; [|now injection H as _ _ <-].
  destruct (OmitReaderAnnotations r) eqn:HO.
  - assert (Hk : maps_kept r h r h) by (split; [exact HO|]; split; auto).
    destruct (read_loop_maps_kept Decode IndexAnnotation _ _ _ _ _ _ _ _ _ _ _ _ Hk H)
      as (_ & Hm & _).
    apply Hm.
  - assert (Ha : after IndexAnnotation r h r h) by (split; [exact HO | left; done]).
    destruct (read_loop_after Decode IndexAnnotation _ _ _ _ _ _ _ _ _ _ _ _ Ha H)
      as ((_ & [[_ ->] | (l0 & i & _ & Hn & _ & _ & Ho)]) & _); [reflexivity|].
    rewrite HS in Hn. unfold deref. rewrite Ho; [reflexivity|].
    intros ->. rewrite Hn in Hl. now destruct Hl.
Qed.

(** X28.  [ByteReadWriter.Read] of a stream in which no document is a
    wrapping list leaves the read-writer without [FunctionConfig],
    [WrappingApiVersion] and [WrappingKind], whatever it held of an earlier
    read and whether the read fails or not; and it changes no map that is
    in the store: its reader is handed none. *)
Theorem ByteReadWriter_Read_resets_wrapping rw h :
  (forall input, brw_Reader rw = Ok input -> Forall plain (Split input separator)) ->
  brw_FunctionConfig (ByteReadWriter_Read rw h).1.2 = None /\
  brw_WrappingApiVersion (ByteReadWriter_Read rw h).1.2 = "" /\
  brw_WrappingKind (ByteReadWriter_Read rw h).1.2 = "" /\
  forall l, is_Some (h !! l) -> deref (ByteReadWriter_Read rw h).2 l = deref h l.
Proof.
  intros Hp. unfold kio.ByteReadWriter_Read.
  set (b := mkByteReader (brw_Reader rw) (brw_OmitReaderAnnotations rw)
              None None "" "").
  assert (Hw : wrapping (Read Decode IndexAnnotation b h).1.2 = wrapping b).
  { unfold Read, Read_as. simpl Reader.
    destruct (brw_Reader rw) as [input|e] eqn:ER; [|reflexivity].
    destruct (read_loop id id (Split input separator) b h [] 0%Z)
      as [[res r'] h'] eqn:E.
    eapply read_loop_plain; [apply Hp; reflexivity | exact E]. }
  pose proof (Read_keeps_held_maps b h) as Hm.
  destruct (Read Decode IndexAnnotation b h) as [[val b'] h'].
  specialize (Hm val b' h' eq_refl eq_refl).
  simpl in *. unfold wrapping in Hw. simpl in Hw. injection Hw as -> -> ->.
  auto.
Qed.

End ReadWriterBytes.


Lemma ByteReadWriter_Read_resets_wrapping_witness :
  (forall input, brw_Reader wrapped_before = Ok input ->
     Forall (plain decoder) (Split input separator)) /\
  brw_WrappingKind wrapped_before = "ResourceList" /\
  brw_WrappingKind (ByteReadWriter_Read decoder index_key wrapped_before callers_heap).1.2
  = "" /\
  brw_FunctionConfig (ByteReadWriter_Read decoder index_key wrapped_before callers_heap).1.2
  = None /\
  deref (ByteReadWriter_Read decoder index_key wrapped_before callers_heap).2 callers_map
  = {[ "team" := "config" ]}.
Proof.
  assert (H : forall input, brw_Reader wrapped_before = Ok input ->
                Forall (plain decoder) (Split input separator)).
  { intros input [= <-].
    assert (Hs : Split two_documents separator = ["a: 1"; "b: 2" +:+ nl])
      by (vm_compute; reflexivity).
    rewrite Hs.
    repeat constructor; intros doc Hd; vm_compute in Hd; injection Hd as <-;
      vm_compute; reflexivity. }
  destruct (ByteReadWriter_Read_resets_wrapping decoder index_key wrapped_before
              callers_heap H) as (Hf & _ & Hk & Hm).
  split; [exact H|]. split; [reflexivity|]. split; [exact Hk|]. split; [exact Hf|].
  rewrite Hm; [vm_compute; reflexivity|].
  exists {[ "team" := "config" ]}. vm_compute. reflexivity.
Defined.


End kio_facts.

(* ===================================================================== *)
(** ** filters.go: the filters and their registry *)
(* ===================================================================== *)

Module filters_facts.
Import gostd yaml gostd_facts scenarios.

(** X1.  [FilterMatcher.Filter] is a gate on the node it is given: when
    the pipeline it holds ends with a node and no error it returns the
    pointer it was given, not the node the pipeline ended with; when the
    pipeline ends with nil it returns nil and no error; an error of the
    pipeline is returned with nil.  The store is as the pipeline left it. *)
Theorem FilterMatcher_gate (t : FilterMatcher) (rn : ptr) (st : store) :
  match Pipe (FilterMatcher_Filters t) rn st with
  | (Some _, None, st') => FilterMatcher_Filter t rn st = (Some rn, None, st')
  | (None, None, st') => FilterMatcher_Filter t rn st = (None, None, st')
  | (_, Some e, st') => FilterMatcher_Filter t rn st = (None, Some e, st')
  end.
Proof.
  unfold FilterMatcher_Filter.
  destruct (Pipe (FilterMatcher_Filters t) rn st) as [[[v|] [e|]] st']; reflexivity.
Qed.

(** X2.  In a pipe, the filters after a [FilterMatcher] that matched run
    on the node the matcher was given, in the store its pipeline left; a
    matcher that did not match, or failed, ends the pipe. *)
Theorem FilterMatcher_in_Pipe (t : FilterMatcher) (rest : list Filter)
    (rn : ptr) (st : store) :
  Pipe (FilterMatcher_Filter t :: rest) rn st
  = match Pipe (FilterMatcher_Filters t) rn st with
    | (Some _, None, st') => Pipe rest rn st'
    | (None, None, st') => (None, None, st')
    | (_, Some e, st') => (Some rn, Some e, st')
    end.
Proof.
  simpl. unfold FilterMatcher_Filter.
  destruct (Pipe (FilterMatcher_Filters t) rn st) as [[[v|] [e|]] st']; reflexivity.
Qed.

Example FilterMatcher_returns_input :
  Pipe [to_other_node] the_node (store_of "a") = (Some other_node, None, store_of "a") /\
  FilterMatcher_Filter (mkFilterMatcher "FilterMatcher" [to_other_node])
    the_node (store_of "a") = (Some the_node, None, store_of "a") /\
  FilterMatcher_Filter (mkFilterMatcher "FilterMatcher" [no_match])
    the_node (store_of "a") = (None, None, store_of "a") /\
  FilterMatcher_Filter (mkFilterMatcher "FilterMatcher" [])
    the_node (store_of "a") = (Some the_node, None, store_of "a").
Proof. repeat split. Qed.

Lemma knownFilters_registered : knownFilters = registered.
Proof. vm_compute. reflexivity. Qed.

Lemma elem_of_knownFilters k : k ∈ knownFilters <-> is_Some (Filters !! k).
Proof.
  unfold knownFilters. rewrite sort_Strings_perm, list_elem_of_fmap. split.
  - intros [[k' v] [-> H]]. apply elem_of_map_to_list in H. simpl. eauto.
  - intros [v H]. exists (k, v). split; [reflexivity|]. now apply elem_of_map_to_list.
Qed.

(** X3.  [YFilter.UnmarshalYAML] on a declaration whose [kind] is none of
    the registered names fails, leaves the receiver as it was, and its
    message lists the sixteen registered names, in ascending order and
    each once, separated by commas. *)
Theorem UnmarshalYAML_unsupported_kind
    (unmarshal_meta : ResourceMeta -> ResourceMeta * option error)
    (unmarshal_filter : Instance -> Instance * option error)
    (y : YFilter) (meta : ResourceMeta) :
  unmarshal_meta (mkResourceMeta "" "") = (meta, None) ->
  MetaKind meta ∉ registered ->
  UnmarshalYAML unmarshal_meta unmarshal_filter y
  = (Some (errorString
             ("unsupported GrepFilter Kind " +:+ MetaKind meta
                +:+ ":  may be one of: [" +:+ Join registered "," +:+ "]")), y) /\
  Sorted le_string registered /\ NoDup registered /\
  forall k, k ∈ registered <-> is_Some (Filters !! k).
Proof.
  intros Hm Hk. rewrite <- knownFilters_registered in *.
  split; [|split; [|split]].
  - unfold UnmarshalYAML. rewrite Hm.
    destruct (Filters !! MetaKind meta) as [c|] eqn:E; [|reflexivity].
    exfalso. apply Hk, elem_of_knownFilters. eauto.
  - apply sort_Strings_sorted.
  - rewrite knownFilters_registered. unfold registered.
    apply (bool_decide_unpack _). vm_compute. exact I.
  - apply elem_of_knownFilters.
Qed.

(** X4.  [YFilter.UnmarshalYAML] on a declaration whose [kind] is a
    registered name sets the receiver's filter to the zero value that the
    constructor registered under that name gives, filled in by the
    callback, and returns the callback's error, if any. *)
Theorem UnmarshalYAML_registered_kind
    (unmarshal_meta : ResourceMeta -> ResourceMeta * option error)
    (unmarshal_filter : Instance -> Instance * option error)
    (y : YFilter) (meta : ResourceMeta) :
  unmarshal_meta (mkResourceMeta "" "") = (meta, None) ->
  MetaKind meta ∈ registered ->
  exists zero,
    (MetaKind meta, zero) ∈ zero_values /\
    UnmarshalYAML unmarshal_meta unmarshal_filter y
    = ((unmarshal_filter zero).2, mkYFilter (Some (unmarshal_filter zero).1)).
Proof.
  intros Hm Hk. rewrite <- knownFilters_registered in Hk.
  apply elem_of_knownFilters in Hk as [filter Hf].
  exists (filter tt). split.
  - unfold Filters in Hf. apply elem_of_list_to_map_2 in Hf.
    unfold zero_values.
    apply (list_elem_of_fmap_2 (fun e => (fst e, snd e tt))) in Hf. exact Hf.
  - unfold UnmarshalYAML. rewrite Hm, Hf.
    destruct (unmarshal_filter (filter tt)) as [f [e|]]; reflexivity.
Qed.

Lemma UnmarshalYAML_registered_kind_witness :
  meta_of_kind "PrefixSetter" (mkResourceMeta "" "")
  = (mkResourceMeta "" "PrefixSetter", None) /\
  "PrefixSetter" ∈ registered /\
  UnmarshalYAML (meta_of_kind "PrefixSetter") fill_value (mkYFilter None)
  = (None, mkYFilter (Some (PrefixSetterDecl (mkPrefixSetter "PrefixSetter" "dev-")))).
Proof.
  assert (H1 : meta_of_kind "PrefixSetter" (mkResourceMeta "" "")
               = (mkResourceMeta "" "PrefixSetter", None)) by reflexivity.
  assert (H2 : MetaKind (mkResourceMeta "" "PrefixSetter") ∈ registered)
    by (apply (bool_decide_unpack _); vm_compute; exact I).
  destruct (UnmarshalYAML_registered_kind (meta_of_kind "PrefixSetter") fill_value
              (mkYFilter None) _ H1 H2) as (zero & _ & H).
  split; [exact H1|]. split; [exact H2|]. vm_compute. reflexivity.
Defined.

Lemma UnmarshalYAML_unsupported_kind_witness :
  meta_of_kind "Grep" (mkResourceMeta "" "") = (mkResourceMeta "" "Grep", None) /\
  ("Grep" ∉ registered) /\
  UnmarshalYAML (meta_of_kind "Grep") fill_value (mkYFilter None)
  = (Some (errorString
      "unsupported GrepFilter Kind Grep:  may be one of: [AnnotationClearer,AnnotationGetter,AnnotationSetter,ElementAppender,ElementMatcher,FieldClearer,FieldMatcher,FieldSetter,FilterMatcher,Parser,PathGetter,PathMatcher,PrefixSetter,SuffixSetter,TeePiper,ValueReplacer]"),
     mkYFilter None).
Proof.
  assert (H1 : meta_of_kind "Grep" (mkResourceMeta "" "")
               = (mkResourceMeta "" "Grep", None)) by reflexivity.
  assert (H2 : MetaKind (mkResourceMeta "" "Grep") ∉ registered)
    by (apply (bool_decide_unpack _); vm_compute; exact I).
  destruct (UnmarshalYAML_unsupported_kind (meta_of_kind "Grep") fill_value
              (mkYFilter None) _ H1 H2) as (H & _).
  split; [exact H1|]. split; [exact H2|]. rewrite H. vm_compute. reflexivity.
Defined.

#[local] Arguments String.append !_ _ / : simpl nomatch.

Lemma replace_scan_negative old new n skip s :
  (n < 0)%Z -> replace_scan old new n skip s = replace_scan old new (-1) skip s.
Proof.
  intros Hn. revert skip. induction s as [|c s IH]; intros skip; [reflexivity|].
  simpl. destruct skip as [|k]; [|apply IH].
  replace (n =? 0)%Z with false by (symmetry; apply Z.eqb_neq; lia).
  replace (n <? 0)%Z with true by (symmetry; apply Z.ltb_lt; lia).
  simpl. now rewrite !IH.
Qed.

Lemma replace_empty_negative new n s :
  (n < 0)%Z -> replace_empty new n s = replace_empty new (-1) s.
Proof.
  intros Hn. induction s as [|c s IH]; simpl.
  - replace (n =? 0)%Z with false by (symmetry; apply Z.eqb_neq; lia). reflexivity.
  - replace (n =? 0)%Z with false by (symmetry; apply Z.eqb_neq; lia).
    replace (n <? 0)%Z with true by (symmetry; apply Z.ltb_lt; lia).
    simpl. now rewrite IH.
Qed.

Lemma Replace_negative s old new n :
  (n < 0)%Z -> Replace s old new n = Replace s old new (-1).
Proof.
  intros Hn. unfold Replace.
  replace (n =? 0)%Z with false by (symmetry; apply Z.eqb_neq; lia).
  simpl (-1 =? 0)%Z. destruct (String.eqb old new); [reflexivity|]. simpl orb.
  destruct old; [now apply replace_empty_negative | now apply replace_scan_negative].
Qed.

Section Regexp.

Variable Regexp : Type.
Variable regexp_Compile : string -> result Regexp.
Variable ReplaceAllString : Regexp -> string -> string -> string.

Abbreviation ValueReplacer_Filter :=
  (ValueReplacer_Filter Regexp regexp_Compile ReplaceAllString).

(** X5.  [ValueReplacer.Filter] returns the missing-match error exactly
    when [StringMatch] and [RegexMatch] are both empty, and then returns
    nil and leaves the store as it was. *)
Theorem ValueReplacer_missing_match (s : ValueReplacer) (object : ptr) (st : store) :
  ((ValueReplacer_Filter s object st).1.2 = Some missing_match
   <-> StringMatch s = "" /\ RegexMatch s = "") /\
  (StringMatch s = "" -> RegexMatch s = "" ->
   ValueReplacer_Filter s object st = (None, Some missing_match, st)).
Proof.
  unfold yaml.ValueReplacer_Filter, missing_match, nil_dereference.
  destruct (String.eqb_spec (StringMatch s) "") as [E1|E1]; simpl.
  - destruct (String.eqb_spec (RegexMatch s) "") as [E2|E2]; simpl.
    + split; [|reflexivity]. split; auto.
    + split; [|congruence]. split; [|intros [_ ?]; congruence].
      destruct (regexp_Compile (RegexMatch s)) as [r|e]; simpl.
      * destruct (st !! object); simpl; discriminate.
      * intros H. injection H as H. simpl in H. discriminate.
  - split; [|congruence]. split; [|intros [? _]; congruence].
    destruct (st !! object); simpl; discriminate.
Qed.

(** X6.  With [StringMatch] set, [ValueReplacer.Filter] gives the node
    back with its value put through [strings.Replace], whatever
    [RegexMatch] is.  A [Count] of zero, or below, replaces without limit,
    which is the same as replacing as many times as there are occurrences,
    or more. *)
Theorem ValueReplacer_literal (s : ValueReplacer) (object : ptr) (st : store)
    (n : Node) :
  st !! object = Some n ->
  StringMatch s <> "" ->
  let replaced (count : Z) :=
    Replace (Value n) (StringMatch s) (ReplaceWith s) count in
  ValueReplacer_Filter s object st
  = (Some object, None,
     <[object := set_Value n
                   (replaced (if (Count s =? 0)%Z then (-1)%Z else Count s))]> st) /\
  ((Count s <= 0)%Z ->
   ValueReplacer_Filter s object st
   = (Some object, None, <[object := set_Value n (replaced (-1)%Z)]> st)) /\
  (forall k : nat,
     gostd.Count (Value n) (StringMatch s) <= k ->
     replaced (Z.of_nat k) = replaced (-1)%Z).
Proof.
  intros Hn Hs replaced.
  assert (E : ValueReplacer_Filter s object st
              = (Some object, None,
                 <[object := set_Value n
                   (replaced (if (Count s =? 0)%Z then (-1)%Z else Count s))]> st)).
  { unfold yaml.ValueReplacer_Filter. rewrite Hn.
    destruct (String.eqb_spec (StringMatch s) ""); [congruence | reflexivity]. }
  split; [exact E|]. split.
  - intros Hc. rewrite E. do 3 f_equal.
    destruct (Z.eqb_spec (Count s) 0); [reflexivity|].
    apply Replace_negative. lia.
  - intros k Hk. now apply Replace_enough.
Qed.

(** X7.  Whenever [ValueReplacer.Filter] returns an error it returns nil
    and the store is as it was; when it returns no error it returns its
    argument and the store differs in the value of that node alone. *)
Theorem ValueReplacer_frame (s : ValueReplacer) (object : ptr) (st : store) :
  match ValueReplacer_Filter s object st with
  | (_, Some _, st') => st' = st
  | (v, None, st') =>
      v = Some object /\
      exists n text,
        st !! object = Some n /\
        st' = <[object := set_Value n text]> st
  end /\
  ((ValueReplacer_Filter s object st).1.2 <> None ->
   (ValueReplacer_Filter s object st).1.1 = None).
Proof.
  unfold yaml.ValueReplacer_Filter.
  destruct (String.eqb (StringMatch s) ""); simpl.
  - destruct (String.eqb (RegexMatch s) ""); simpl; [split; done|].
    destruct (regexp_Compile (RegexMatch s)) as [r|e]; simpl; [|split; done].
    destruct (st !! object) as [n|] eqn:E; simpl; [|split; done].
    split; [|done]. split; [reflexivity|]. eauto.
  - destruct (st !! object) as [n|] eqn:E; simpl; [|split; done].
    split; [|done]. split; [reflexivity|]. eauto.
Qed.

End Regexp.

Lemma ValueReplacer_literal_witness :
  store_of "foofoo" !! the_node = Some (str "foofoo") /\
  StringMatch (mkValueReplacer "ValueReplacer" "foo" "" "bar" 0) <> "" /\
  ValueReplacer_Filter string literal_Compile literal_ReplaceAll
    (mkValueReplacer "ValueReplacer" "foo" "" "bar" 0) the_node (store_of "foofoo")
  = (Some the_node, None, store_of "barbar") /\
  ValueReplacer_Filter string literal_Compile literal_ReplaceAll
    (mkValueReplacer "ValueReplacer" "foo" "" "bar" 1) the_node (store_of "foofoo")
  = (Some the_node, None, store_of "barfoo").
Proof.
  assert (H1 : store_of "foofoo" !! the_node = Some (str "foofoo")) by reflexivity.
  assert (H2 : StringMatch (mkValueReplacer "ValueReplacer" "foo" "" "bar" 0) <> "")
    by discriminate.
  destruct (ValueReplacer_literal string literal_Compile literal_ReplaceAll
              _ _ _ _ H1 H2) as (_ & H & _).
  split; [exact H1|]. split; [exact H2|]. split.
  - rewrite H by (simpl; lia). vm_compute. reflexivity.
  - vm_compute. reflexivity.
Defined.

(** X8.  [PrefixSetter.Filter] is idempotent: run again on the store it
    left, it returns the same and leaves the same store.  After it the
    node's value starts with the configured text, and no other node has
    changed. *)
Theorem PrefixSetter_idempotent (s : PrefixSetter) (object : ptr) (st : store) :
  let once := PrefixSetter_Filter s object st in
  PrefixSetter_Filter s object once.2 = once /\
  (forall n', once.2 !! object = Some n' ->
     HasPrefix (Value n') (PrefixSetter_Value s) = true) /\
  (forall other, other <> object -> once.2 !! other = st !! other).
Proof.
  unfold PrefixSetter_Filter.
  destruct (st !! object) as [n|] eqn:E; simpl.
  - destruct (HasPrefix (Value n) (PrefixSetter_Value s)) eqn:Hp; simpl.
    + rewrite E, Hp. simpl. repeat split; try done.
      intros n' Hn'. now injection Hn' as <-.
    + rewrite lookup_insert_eq. simpl. rewrite HasPrefix_append. simpl.
      repeat split.
      * intros n' Hn'. injection Hn' as <-.
        simpl. apply HasPrefix_append.
      * intros other Ho. now rewrite lookup_insert_ne.
  - rewrite E. repeat split; try done.
Qed.

(** X9.  [SuffixSetter.Filter] is idempotent: run again on the store it
    left, it returns the same and leaves the same store.  After it the
    node's value ends with the configured text, and no other node has
    changed. *)
Theorem SuffixSetter_idempotent (s : SuffixSetter) (object : ptr) (st : store) :
  let once := SuffixSetter_Filter s object st in
  SuffixSetter_Filter s object once.2 = once /\
  (forall n', once.2 !! object = Some n' ->
     HasSuffix (Value n') (SuffixSetter_Value s) = true) /\
  (forall other, other <> object -> once.2 !! other = st !! other).
Proof.
  unfold SuffixSetter_Filter.
  destruct (st !! object) as [n|] eqn:E; simpl.
  - destruct (HasSuffix (Value n) (SuffixSetter_Value s)) eqn:Hp; simpl.
    + rewrite E, Hp. simpl. repeat split; try done.
      intros n' Hn'. now injection Hn' as <-.
    + rewrite lookup_insert_eq. simpl. rewrite HasSuffix_append. simpl.
      repeat split.
      * intros n' Hn'. injection Hn' as <-.
        simpl. apply HasSuffix_append.
      * intros other Ho. now rewrite lookup_insert_ne.
  - rewrite E. repeat split; try done.
Qed.

Example PrefixSetter_twice :
  PrefixSetter_Filter (mkPrefixSetter "PrefixSetter" "dev-") the_node (store_of "app")
  = (Some the_node, None, store_of "dev-app") /\
  PrefixSetter_Filter (mkPrefixSetter "PrefixSetter" "dev-") the_node (store_of "dev-app")
  = (Some the_node, None, store_of "dev-app") /\
  SuffixSetter_Filter (mkSuffixSetter "SuffixSetter" "-v1") the_node (store_of "app")
  = (Some the_node, None, store_of "app-v1").
Proof. vm_compute. auto. Qed.

End filters_facts.
